(** * tf_skein task dispatch: rendezvous, port reservation and monitored execution

    A shallow embedding of [tf_skein/_dispatch_task.py] ([dispatch] and
    [main]) together with the collaborators it imports from
    [tf_skein._internal] ([xset_environ], [iter_available_sock_addrs],
    [KVBarrier], [MonitoredThread]).

    Layout: the first half of the file holds the definitions (one module per
    component), the second half the facts proved about them. *)

From Stdlib Require Import Ascii ZArith Decimal DecimalString DecimalPos DecimalN DecimalZ.
From stdpp Require Import base option list strings gmap fin_maps fin_sets sorting.

Set Default Proof Using "Type".
Set Warnings "-clear-no-such-hyp".
Local Open Scope Z_scope.

(** ** Python values used by the program *)

(** Exceptions are values.  [Failure] stands for the failures of foreign code
    (the experiment function, the TensorFlow server, the unit of work): the
    number is the identity of the exception object, the string its message. *)
Inductive exn : Type :=
  | KeyError (key : string)
  | ValueError (msg : string)
  | RuntimeError (msg : string)
  | AssertionError
  | StopIteration
  | OSError (errno : Z)
  | StoreUnavailable
  | Failure (ident : nat) (msg : string).

#[global] Instance exn_eq_dec : EqDecision exn.
Proof. solve_decision. Defined.

(** The result of running a piece of the program: it returns a value, raises,
    or never comes back (a wait that is never satisfied). *)
Inductive outcome (A : Type) : Type :=
  | Returns (a : A)
  | Raises (e : exn)
  | Blocks.
Arguments Returns {A} a.
Arguments Raises {A} e.
Arguments Blocks {A}.

Definition EADDRINUSE : Z := 98.
Definition ENOBUFS : Z := 105.

(** ** Strings: [str.split], [int], [str] *)
Module PyStr.

(** [s.split(c, 1)]: cut at the first occurrence of [c]. *)
Fixpoint split_first (c : ascii) (s : string) : option (string * string) :=
  match s with
  | EmptyString => None
  | String a s' =>
      if Ascii.eqb a c then Some (EmptyString, s')
      else match split_first c s' with
           | Some (l, r) => Some (String a l, r)
           | None => None
           end
  end.

Definition split1 (c : ascii) (s : string) : list string :=
  match split_first c s with
  | Some (l, r) => [l; r]
  | None => [s]
  end.

(** [s.rsplit(c, 1)]: cut at the last occurrence of [c]. *)
Fixpoint split_last (c : ascii) (s : string) : option (string * string) :=
  match s with
  | EmptyString => None
  | String a s' =>
      match split_last c s' with
      | Some (l, r) => Some (String a l, r)
      | None => if Ascii.eqb a c then Some (EmptyString, s') else None
      end
  end.

Fixpoint occurs (c : ascii) (s : string) : bool :=
  match s with
  | EmptyString => false
  | String a s' => Ascii.eqb a c || occurs c s'
  end.

(** [Py_ISSPACE]: the white space that [int] skips around an ASCII
    literal.  The separators 28 to 31, for which [str.isspace] holds, are
    not part of it. *)
Definition is_space (a : ascii) : bool :=
  let n := N_of_ascii a in
  ((9 <=? n) && (n <=? 13) || (n =? 32))%N.

Definition digit_of (a : ascii) : option Z :=
  let n := N_of_ascii a in
  if ((48 <=? n) && (n <=? 57))%N then Some (Z.of_N n - 48) else None.

Fixpoint lstrip (s : string) : string :=
  match s with
  | String a s' => if is_space a then lstrip s' else s
  | EmptyString => EmptyString
  end.

Fixpoint all_space (s : string) : bool :=
  match s with
  | String a s' => is_space a && all_space s'
  | EmptyString => true
  end.

(** The digit part of an [int] literal: decimal digits, single underscores
    allowed between two digits, white space allowed after the last digit.
    [seen] tells whether the previous character was a digit. *)
Fixpoint int_digits (acc : Z) (seen : bool) (s : string) : option Z :=
  match s with
  | EmptyString => if seen then Some acc else None
  | String a s' =>
      match digit_of a with
      | Some d => int_digits (10 * acc + d) true s'
      | None =>
          if Ascii.eqb a "_" then
            if seen then int_digits acc false s' else None
          else if is_space a then
            if seen && all_space s' then Some acc else None
          else None
      end
  end.

(** An ASCII literal in base 10, as [PyLong_FromString] reads it: white
    space, one optional sign, digits with single underscores between them
    (Python 3.6 and later, which the f-strings of the program require),
    white space. *)
Definition int_literal (s : string) : option Z :=
  match lstrip s with
  | String "+" r => int_digits 0 false r
  | String "-" r => Z.opp <$> int_digits 0 false r
  | r => int_digits 0 false r
  end.

(** What the interpreter brings to [int]: the code points above ASCII of
    the digits zero of its Unicode database (each is followed by the digits
    one to nine), and [sys.get_int_max_str_digits()], which is 0 when the
    interpreter has no limit. *)
Record interpreter : Type := Interpreter {
  unicode_zeros : list N;
  int_max_str_digits : nat
}.

(** CPython 3.11: Unicode 14.0 and the default limit. *)
Definition cpython : interpreter :=
  Interpreter
    [1632; 1776; 1984; 2406; 2534; 2662; 2790; 2918;
     3046; 3174; 3302; 3430; 3558; 3664; 3792; 3872;
     4160; 4240; 6112; 6160; 6470; 6608; 6784; 6800;
     6992; 7088; 7232; 7248; 42528; 43216; 43264; 43472;
     43504; 43600; 44016; 65296; 66720; 68912; 69734; 69872;
     69942; 70096; 70384; 70736; 70864; 71248; 71360; 71472;
     71904; 72016; 72784; 73040; 73120; 92768; 92864; 93008;
     120782; 120792; 120802; 120812; 120822; 123200; 123632; 125264;
     130032]%N
    4300.

Definition continuation (a : ascii) : option N :=
  let n := N_of_ascii a in
  if ((128 <=? n) && (n <? 192))%N then Some (n - 128)%N else None.

(** A [str] is kept as the bytes of its UTF-8 encoding, the form in which
    the values of [os.environ] reach the process; cutting at an underscore
    and joining with ASCII text are the same on the bytes and on the code
    points.  [decode] gives the code points.  [None]: the bytes are not
    well-formed UTF-8; the interpreter then keeps the offending bytes as
    lone surrogates, which [int] refuses. *)
Fixpoint decode (s : string) : option (list N) :=
  match s with
  | EmptyString => Some []
  | String a s1 =>
      let n := N_of_ascii a in
      if (n <? 128)%N then cons n <$> decode s1
      else if ((194 <=? n) && (n <? 224))%N then
        match s1 with
        | String b s2 =>
            match continuation b with
            | Some x => cons ((n - 192) * 64 + x)%N <$> decode s2
            | None => None
            end
        | _ => None
        end
      else if ((224 <=? n) && (n <? 240))%N then
        match s1 with
        | String b (String c s3) =>
            match continuation b, continuation c with
            | Some x, Some y =>
                let cp := ((n - 224) * 4096 + x * 64 + y)%N in
                if ((2048 <=? cp) && negb ((55296 <=? cp) && (cp <? 57344)))%N
                then cons cp <$> decode s3 else None
            | _, _ => None
            end
        | _ => None
        end
      else if ((240 <=? n) && (n <? 245))%N then
        match s1 with
        | String b (String c (String d s4)) =>
            match continuation b, continuation c, continuation d with
            | Some x, Some y, Some z =>
                let cp := ((n - 240) * 262144 + x * 4096 + y * 64 + z)%N in
                if ((65536 <=? cp) && (cp <? 1114112))%N
                then cons cp <$> decode s4 else None
            | _, _, _ => None
            end
        | _ => None
        end
      else None
  end.

(** [Py_UNICODE_ISSPACE] above ASCII. *)
Definition unicode_space (cp : N) : bool :=
  bool_decide (cp ∈ [133; 160; 5760; 8192; 8193; 8194; 8195; 8196; 8197; 8198;
                     8199; 8200; 8201; 8202; 8232; 8233; 8239; 8287; 12288]%N).

(** [Py_UNICODE_TODECIMAL] above ASCII. *)
Definition unicode_decimal (py : interpreter) (cp : N) : option N :=
  (λ z, cp - z)%N <$> List.find (λ z, (z <=? cp) && (cp <? z + 10))%N (unicode_zeros py).

(** What [int] makes of one code point before it reads the literal: a
    code point below 127 stays, other white space becomes a space, another
    decimal digit becomes the ASCII digit of its value, anything else is
    refused. *)
Definition to_ascii (py : interpreter) (cp : N) : option ascii :=
  if (cp <? 127)%N then Some (ascii_of_N cp)
  else if unicode_space cp then Some " "%char
  else (λ d, ascii_of_N (48 + d)) <$> unicode_decimal py cp.

Definition transform (py : interpreter) (s : string) : option string :=
  cps ← decode s; Stdlib.Strings.String.string_of_list_ascii <$> mapM (to_ascii py) cps.

Fixpoint digit_count (s : string) : nat :=
  match s with
  | EmptyString => O
  | String a s' => (match digit_of a with Some _ => 1 | None => 0 end) + digit_count s'
  end.

(** The guard of recent interpreters against long literals: more than 640
    digits, a limit that is set, and more digits than the limit. *)
Definition exceeds (limit digits : nat) : bool :=
  (640 <? digits)%nat && (0 <? limit)%nat && (limit <? digits)%nat.

(** The strings that [transform] leaves as they are. *)
Fixpoint plain (s : string) : bool :=
  match s with
  | EmptyString => true
  | String a s' => (N_of_ascii a <? 127)%N && plain s'
  end.

(** [int(s)], base 10.  [None] is [ValueError]. *)
Definition int (py : interpreter) (s : string) : option Z :=
  t ← transform py s;
  n ← int_literal t;
  if exceeds (int_max_str_digits py) (digit_count t) then None else Some n.

(** [str(n)] for an integer.  Recent interpreters refuse to write more
    digits than [int_max_str_digits]; the program writes port numbers and
    indices that [int] has read under the same limit, so this is left
    out. *)
Definition str (n : Z) : string := NilZero.string_of_int (Z.to_int n).

End PyStr.

(** ** The process environment: [xset_environ] *)
Module Environ.

Abbreviation environ := (gmap string string).

Definition collides (env : environ) (kv : string * string) : bool :=
  match env !! kv.1 with
  | Some old => negb (String.eqb old kv.2)
  | None => false
  end.

Definition update (env : environ) (kwargs : list (string * string)) : environ :=
  foldl (λ e kv, <[kv.1 := kv.2]> e) env kwargs.

(** Modelled from the spec: [xset_environ] of [tf_skein/_internal.py],
    which is not among the sources.  The guarded mutation fails with a
    [RuntimeError] (the error that [test_xset_environ_failure] expects)
    when a key it is about to set already has a different value, and
    then applies nothing; otherwise it sets every key.  The second
    component is [os.environ] after the call. *)
Definition xset_environ (kwargs : list (string * string)) (env : environ)
    : outcome unit * environ :=
  match List.find (collides env) kwargs with
  | Some kv => (Raises (RuntimeError (kv.1 +:+ " already set in os.environ")), env)
  | None => (Returns (), update env kwargs)
  end.

End Environ.

(** ** Local ports: [iter_available_sock_addrs] *)
Module PortAllocator.

Definition Address : Type := string * Z.

(** The machine as the allocator sees it: the host name, the ports the
    kernel hands out for a bind to port 0 (in its order of preference),
    the ports of the sockets the open sequence holds (oldest first),
    whether the sequence has been closed, and the ports bound by anybody
    else. *)
Record machine : Type := Machine {
  host : string;
  ephemeral : list Z;
  held : list Z;
  closed : bool;
  others : gset Z
}.

Definition bound (m : machine) : gset Z := list_to_set (held m) ∪ others m.

Definition free_ports (m : machine) : gset Z := list_to_set (ephemeral m) ∖ bound m.

Definition available (m : machine) : nat := size (free_ports m).

(** A bind to port 0: the kernel picks the first port nobody has bound. *)
Definition bind_any (m : machine) : option Z :=
  head (filter (λ p, p ∉ bound m) (ephemeral m)).

(** Modelled from the spec: [iter_available_sock_addrs] of
    [tf_skein/_internal.py], which is not among the sources.  The call
    starts a new sequence, which holds nothing yet; what an earlier
    sequence still holds is bound like any other port. *)
Definition iter_available_sock_addrs (m : machine) : machine :=
  Machine (host m) (ephemeral m) [] false (bound m).

(** Modelled from the spec: one step of the sequence.  It binds a fresh
    socket and keeps it open; when the platform has no free port the
    sequence fails and is over; a closed sequence yields nothing more. *)
Definition next (m : machine) : outcome Address * machine :=
  if closed m then (Raises StopIteration, m)
  else match bind_any m with
       | Some p =>
           (Returns (host m, p),
            Machine (host m) (ephemeral m) (held m ++ [p]) false (others m))
       | None =>
           (Raises (OSError ENOBUFS),
            Machine (host m) (ephemeral m) [] true (others m))
       end.

(** Modelled from the spec: closing the sequence releases every socket it
    holds. *)
Definition close (m : machine) : machine :=
  Machine (host m) (ephemeral m) [] true (others m).

(** [s.bind((host, port))] by a third party. *)
Definition bind (a : Address) (m : machine) : outcome unit * machine :=
  if decide (a.2 ∈ bound m) then (Raises (OSError EADDRINUSE), m)
  else (Returns (), Machine (host m) (ephemeral m) (held m) (closed m) ({[a.2]} ∪ others m)).

(** A third party closes one of its own sockets. *)
Definition release (p : Z) (m : machine) : machine :=
  Machine (host m) (ephemeral m) (held m) (closed m) (others m ∖ {[p]}).

(** [[next(it) for _ in range(n)]] *)
Fixpoint draw (n : nat) (m : machine) : outcome (list Address) * machine :=
  match n with
  | O => (Returns [], m)
  | S k =>
      match next m with
      | (Returns a, m1) =>
          match draw k m1 with
          | (Returns l, m2) => (Returns (a :: l), m2)
          | (Raises e, m2) => (Raises e, m2)
          | (Blocks, m2) => (Blocks, m2)
          end
      | (Raises e, m1) => (Raises e, m1)
      | (Blocks, m1) => (Blocks, m1)
      end
  end.

(** What can happen on the machine while the sequence is open: the owner
    draws, third parties bind and release ports. *)
Inductive action : Type :=
  | Draw
  | Bind (p : Z)
  | Release (p : Z).

Definition step (a : action) (m : machine) : list Address * machine :=
  match a with
  | Draw => match next m with
            | (Returns x, m') => ([x], m')
            | (_, m') => ([], m')
            end
  | Bind p => ([], (bind (host m, p) m).2)
  | Release p => ([], release p m)
  end.

(** Runs the actions in order; the first component collects the addresses
    the sequence yielded. *)
Fixpoint run (acts : list action) (m : machine) : list Address * machine :=
  match acts with
  | [] => ([], m)
  | a :: acts' =>
      let '(ys, m1) := step a m in
      let '(zs, m2) := run acts' m1 in
      (ys ++ zs, m2)
  end.

(** A machine on which no sequence has been started. *)
Definition fresh (h : string) (pool : list Z) (taken : gset Z) : machine :=
  Machine h pool [] true taken.

End PortAllocator.

(** ** The rendezvous: [KVBarrier] *)
Module KVBarrier.

Abbreviation store := (gmap string string).
Abbreviation ClusterSpec := (gmap string (list string)).

Record TaskIdentity : Type := Task {
  task_type : string;
  task_index : Z
}.

#[global] Instance TaskIdentity_eq_dec : EqDecision TaskIdentity.
Proof. solve_decision. Defined.

(** The key of a task, in the format of the container ids that [main]
    passes to [wait]: ["<type>_<index>"]. *)
Definition serialize (t : TaskIdentity) : string :=
  task_type t +:+ "_" +:+ PyStr.str (task_index t).

(** Reads a key back; only keys that [serialize] writes are accepted. *)
Definition deserialize (key : string) : option TaskIdentity :=
  '(ty, digits) ← PyStr.split_last "_" key;
  i ← NilZero.int_of_string digits;
  let t := Task ty (Z.of_int i) in
  if decide (serialize t = key) then Some t else None.

Fixpoint strip_prefix (p s : string) : option string :=
  match p with
  | EmptyString => Some s
  | String a p' =>
      match s with
      | String b s' => if Ascii.eqb a b then strip_prefix p' s' else None
      | EmptyString => None
      end
  end.

Definition phase_key (phase key : string) : string := phase +:+ "/" +:+ key.

Definition under (phase : string) (kv : string * string) : option (string * string) :=
  key ← strip_prefix (phase +:+ "/") kv.1; Some (key, kv.2).

(** The entries under [<phase>/*], without the prefix. *)
Definition published (phase : string) (σ : store) : list (string * string) :=
  omap (under phase) (map_to_list σ).

Definition count_published (phase : string) (σ : store) : nat :=
  length (published phase σ).

Record barrier : Type := Barrier {
  stage : string;
  num_workers : nat;
  num_ps : nat
}.

Definition expected (b : barrier) : nat := (num_workers b + num_ps b)%nat.

Fixpoint insert_by_index (x : Z * string) (l : list (Z * string)) : list (Z * string) :=
  match l with
  | [] => [x]
  | y :: l' => if x.1 <? y.1 then x :: y :: l' else y :: insert_by_index x l'
  end.

Definition add_entry (e : TaskIdentity * string) (g : gmap string (list (Z * string)))
    : gmap string (list (Z * string)) :=
  <[task_type e.1 := insert_by_index (task_index e.1, e.2) (default [] (g !! task_type e.1))]> g.

Definition group (es : list (TaskIdentity * string)) : gmap string (list (Z * string)) :=
  foldr add_entry ∅ es.

(** Modelled from the spec: the cluster spec that [KVBarrier.wait] builds
    from the payloads it reads, the addresses by task type and each type's
    addresses by task index. *)
Definition cluster_spec (es : list (TaskIdentity * string)) : ClusterSpec :=
  (λ l : list (Z * string), l.*2) <$> group es.

Definition parse_entry (kv : string * string) : option (TaskIdentity * string) :=
  t ← deserialize kv.1; Some (t, kv.2).

Definition entries (phase : string) (σ : store) : list (TaskIdentity * string) :=
  omap parse_entry (published phase σ).

(** Modelled from the spec: the first half of [KVBarrier.wait], which puts
    the payload under [<phase>/<key>]; writing a key again overwrites it. *)
Definition publish (b : barrier) (key payload : string) (σ : store) : store :=
  <[phase_key (stage b) key := payload]> σ.

(** Modelled from the spec: one query of the store by a participant in
    [KVBarrier.wait], which is not among the sources: the topology when the
    number of keys under the phase is the expected count, nothing
    otherwise. *)
Definition poll (b : barrier) (σ : store) : option ClusterSpec :=
  if decide (count_published (stage b) σ = expected b)
  then Some (cluster_spec (entries (stage b) σ))
  else None.

(** What the store does while one process waits: the writes of the others
    that arrive (in order), or the store is lost. *)
Inductive weather : Type :=
  | Reachable (peers : list (string * string))
  | Unreachable.

Definition arrive (σ : store) (peers : list (string * string)) : store :=
  foldl (λ s kv, <[kv.1 := kv.2]> s) σ peers.

(** Modelled from the spec: [KVBarrier.wait] of [tf_skein/_internal.py],
    which is not among the sources.  The caller publishes its payload under
    [<phase>/<key>] and then queries the store until the number of keys
    under [<phase>/*] is the expected count; it then returns the topology
    read from these entries.  There is no timeout: a count that is never
    reached blocks for ever, a store that is lost raises. *)
Definition wait (b : barrier) (key payload : string) (w : weather) (σ : store)
    : outcome ClusterSpec * store :=
  let σ1 := publish b key payload σ in
  match w with
  | Unreachable => (Raises StoreUnavailable, σ1)
  | Reachable peers =>
      let σ2 := arrive σ1 peers in
      match poll b σ2 with
      | Some spec => (Returns spec, σ2)
      | None => (Blocks, σ2)
      end
  end.

(** *** Several participants around one store *)

(** The two barriers that [main] builds. *)
Inductive phase : Type :=
  | Init
  | Stop.

#[global] Instance phase_eq_dec : EqDecision phase.
Proof. solve_decision. Defined.

Definition phase_name (ph : phase) : string :=
  match ph with
  | Init => "init"
  | Stop => "stop"
  end.

Record participant : Type := Participant {
  ident : TaskIdentity;
  address : string
}.

#[global] Instance participant_eq_dec : EqDecision participant.
Proof. solve_decision. Defined.

(** What a participant publishes: its address in the init phase, the empty
    sentinel in the stop phase. *)
Definition payload (ph : phase) (p : participant) : string :=
  match ph with
  | Init => address p
  | Stop => EmptyString
  end.

Inductive event : Type :=
  | Call (i : nat) (ph : phase)
  | Return (i : nat) (ph : phase) (result : ClusterSpec).

#[global] Instance event_eq_dec : EqDecision event.
Proof. solve_decision. Defined.

Record system : Type := System {
  workers : nat;
  servers : nat;
  parts : list participant
}.

Definition barrier_of (sys : system) (ph : phase) : barrier :=
  Barrier (phase_name ph) (workers sys) (servers sys).

Definition key_of (ph : phase) (p : participant) : string :=
  phase_key (phase_name ph) (serialize (ident p)).

Record state : Type := State {
  kv : store;
  past : list event
}.

(** Modelled from the spec: [KVBarrier.wait] as several participants run
    it side by side.  [Call i ph]: participant [i] enters [wait] and
    publishes.  [Return i ph r]: its [wait] returns [r]; this needs an
    earlier call and a query that finds the phase complete. *)
Definition step (sys : system) (st : state) (ev : event) : option state :=
  match ev with
  | Call i ph =>
      p ← parts sys !! i;
      Some (State (publish (barrier_of sys ph) (serialize (ident p)) (payload ph p) (kv st))
                  (past st ++ [ev]))
  | Return i ph r =>
      if decide (Call i ph ∈ past st ∧ poll (barrier_of sys ph) (kv st) = Some r)
      then Some (State (kv st) (past st ++ [ev]))
      else None
  end.

Fixpoint exec (sys : system) (evs : list event) (st : state) : option state :=
  match evs with
  | [] => Some st
  | ev :: evs' => st' ← step sys st ev; exec sys evs' st'
  end.

Definition start : state := State ∅ [].

(** The entries that a complete init phase holds. *)
Definition topology (ps : list participant) : list (TaskIdentity * string) :=
  (λ p, (ident p, address p)) <$> ps.

(** All the addresses of a cluster spec. *)
Definition addresses (spec : ClusterSpec) : list string :=
  concat (map_to_list spec).*2.

Definition by_index : relation (Z * string) := λ x y, x.1 < y.1.

(** The store holds what the callers so far have published, and nothing
    else. *)
Definition accounted (sys : system) (st : state) : Prop :=
  (∀ key v, kv st !! key = Some v →
     ∃ i ph p, Call i ph ∈ past st ∧ parts sys !! i = Some p
               ∧ key = key_of ph p ∧ v = payload ph p)
  ∧ (∀ i ph p, Call i ph ∈ past st → parts sys !! i = Some p →
       is_Some (kv st !! key_of ph p)).

End KVBarrier.

(** ** The unit of work: [MonitoredThread] *)
Module MonitoredThread.

(** What the unit of work has done by the time its owner looks at it: for
    a thread that is joined this is how it ends; a thread that is not
    joined may still be running. *)
Inductive behaviour : Type :=
  | Finishes
  | Fails (e : exn)
  | StillRunning.

Inductive status : Type :=
  | Created
  | Running
  | Joined.

Record thread : Type := Thread {
  name : string;
  daemon : bool;
  target : behaviour;
  state : status
}.

(** Modelled from the spec: [MonitoredThread] of [tf_skein/_internal.py],
    which is not among the sources.  [start] launches the unit on its own
    thread and returns at once. *)
Definition start (t : thread) : thread :=
  Thread (name t) (daemon t) (target t) Running.

(** Modelled from the spec: [join] blocks until the unit finishes and does
    not itself raise. *)
Definition join (t : thread) : outcome unit * thread :=
  match target t with
  | StillRunning => (Blocks, t)
  | _ => (Returns (), Thread (name t) (daemon t) (target t) Joined)
  end.

(** Modelled from the spec: [exception] is the captured failure when the
    unit ended by raising, [None] when it ended normally or has not ended. *)
Definition exception (t : thread) : option exn :=
  match state t, target t with
  | Created, _ => None
  | _, Fails e => Some e
  | _, _ => None
  end.

End MonitoredThread.

(** ** The orchestrator: [dispatch] and [main] of [_dispatch_task.py] *)
Module DispatchTask.

(** What the process does to the outside, in order. *)
Inductive event : Type :=
  | Connect
  | Yield (a : PortAllocator.Address)
  | Close
  | WaitEnter (phase key payload : string)
  | WaitLeave (phase : string)
  | Experiment
  | Server (job : string) (index : Z)
  | Start (name : string) (daemon : bool)
  | Join.

#[global] Instance event_eq_dec : EqDecision event.
Proof. solve_decision. Defined.

Record world : Type := World {
  environ : Environ.environ;
  kv : KVBarrier.store;
  net : PortAllocator.machine;
  trace : list event
}.

(** [experiment.config], as far as [dispatch] reads it. *)
Record experiment : Type := Exp {
  config_task_type : string;
  config_task_id : Z
}.

(** The interpreter and the foreign code of one run: [json.dumps] on the
    dictionary that [dispatch] builds (cluster, task type, task index,
    environment), the skein client, the experiment function (which reads
    [os.environ]), [tf.train.Server] for a job name and a task index (it
    binds the port that the cluster spec of the configuration gives to the
    task, so it acts on the machine, and it may fail),
    [tf.estimator.train_and_evaluate], and what the store does during the
    two waits. *)
Record collaborators : Type := Collaborators {
  python : PyStr.interpreter;
  json_dumps : KVBarrier.ClusterSpec → string → Z → string → string;
  from_current : option exn;
  experiment_fn : Environ.environ → exn + experiment;
  server : string → Z → PortAllocator.machine → option exn * PortAllocator.machine;
  train_and_evaluate : MonitoredThread.behaviour;
  init_weather : KVBarrier.weather;
  stop_weather : KVBarrier.weather
}.

Definition M (A : Type) : Type := world → outcome A * world.

Definition ret {A} (a : A) : M A := λ w, (Returns a, w).

Definition raise {A} (e : exn) : M A := λ w, (Raises e, w).

Definition bind {A B} (m : M A) (k : A → M B) : M B := λ w,
  match m w with
  | (Returns a, w') => k a w'
  | (Raises e, w') => (Raises e, w')
  | (Blocks, w') => (Blocks, w')
  end.

Notation "'do' x <- m ; k" := (bind m (λ x, k))
  (at level 10, x name, m at level 100, k at level 200).
Notation "'do' ' p <- m ; k" := (bind m (λ x, match x with p => k end))
  (at level 10, p strict pattern, m at level 100, k at level 200).

Definition emit (ev : event) : M unit := λ w,
  (Returns (), World (environ w) (kv w) (net w) (trace w ++ [ev])).

(** [os.environ[key]] *)
Definition getenv (key : string) : M string := λ w,
  match environ w !! key with
  | Some v => (Returns v, w)
  | None => (Raises (KeyError key), w)
  end.

(** [a, b = l] *)
Definition unpack2 (l : list string) : M (string * string) :=
  match l with
  | [a; b] => ret (a, b)
  | _ :: _ :: _ :: _ => raise (ValueError "too many values to unpack (expected 2)")
  | _ =>
      raise (ValueError ("not enough values to unpack (expected 2, got "
                         +:+ PyStr.str (Z.of_nat (length l)) +:+ ")"))
  end.

(** [int(s)].  The text of the error is abridged: the interpreter quotes
    the string, and has another text when the digits are too many. *)
Definition to_int (py : PyStr.interpreter) (s : string) : M Z :=
  match PyStr.int py s with
  | Some n => ret n
  | None => raise (ValueError ("invalid literal for int() with base 10: " +:+ s))
  end.

Definition connect (c : collaborators) : M unit :=
  match from_current c with
  | Some e => raise e
  | None => emit Connect
  end.

Definition xset_environ (kwargs : list (string * string)) : M unit := λ w,
  let '(r, env) := Environ.xset_environ kwargs (environ w) in
  (r, World env (kv w) (net w) (trace w)).

Definition iter_available_sock_addrs : M unit := λ w,
  (Returns (),
   World (environ w) (kv w) (PortAllocator.iter_available_sock_addrs (net w)) (trace w)).

Definition next_addr : M PortAllocator.Address := λ w,
  match PortAllocator.next (net w) with
  | (Returns a, m) => (Returns a, World (environ w) (kv w) m (trace w ++ [Yield a]))
  | (r, m) => (r, World (environ w) (kv w) m (trace w))
  end.

(** [with closing(it): body]: the sequence is closed when the body is left,
    by a return or by an exception; a body that blocks is never left. *)
Definition with_closing {A} (body : M A) : M A := λ w,
  match body w with
  | (Blocks, w') => (Blocks, w')
  | (r, w') =>
      (r, World (environ w') (kv w') (PortAllocator.close (net w')) (trace w' ++ [Close]))
  end.

Definition barrier_wait (b : KVBarrier.barrier) (key payload : string)
    (weather : KVBarrier.weather) : M KVBarrier.ClusterSpec := λ w,
  let entered := trace w ++ [WaitEnter (KVBarrier.stage b) key payload] in
  match KVBarrier.wait b key payload weather (kv w) with
  | (Returns spec, σ) =>
      (Returns spec,
       World (environ w) σ (net w) (entered ++ [WaitLeave (KVBarrier.stage b)]))
  | (r, σ) => (r, World (environ w) σ (net w) entered)
  end.

Definition call_experiment_fn (c : collaborators) : M experiment := λ w,
  let w' := World (environ w) (kv w) (net w) (trace w ++ [Experiment]) in
  match experiment_fn c (environ w) with
  | inr e => (Returns e, w')
  | inl err => (Raises err, w')
  end.

Definition assert (b : bool) : M unit :=
  if b then ret () else raise AssertionError.

Definition start_server (c : collaborators) (job : string) (index : Z) : M unit := λ w,
  let '(failure, m) := server c job index (net w) in
  let w' := World (environ w) (kv w) m (trace w ++ [Server job index]) in
  match failure with
  | Some e => (Raises e, w')
  | None => (Returns (), w')
  end.

Definition thread_start (t : MonitoredThread.thread) : M MonitoredThread.thread :=
  do _ <- emit (Start (MonitoredThread.name t) (MonitoredThread.daemon t));
  ret (MonitoredThread.start t).

Definition thread_join (t : MonitoredThread.thread) : M MonitoredThread.thread := λ w,
  let w' := World (environ w) (kv w) (net w) (trace w ++ [Join]) in
  match MonitoredThread.join t with
  | (Returns _, t') => (Returns t', w')
  | (Raises e, _) => (Raises e, w')
  | (Blocks, _) => (Blocks, w')
  end.

Definition dispatch (c : collaborators) (task_type : string) (task_id : Z)
    (spec : KVBarrier.ClusterSpec) : M MonitoredThread.thread :=
  let fake_google_env :=
    negb (String.eqb task_type "evaluator") && negb (String.eqb task_type "ps") in
  do _ <- xset_environ
    [("TF_CONFIG"%string,
      json_dumps c spec task_type task_id
        (if fake_google_env then "google" else EmptyString))];
  do experiment <- call_experiment_fn c;
  do _ <- assert (String.eqb (config_task_type experiment) task_type);
  do _ <- assert (config_task_id experiment =? task_id);
  do _ <- (if fake_google_env
           then start_server c (config_task_type experiment) (config_task_id experiment)
           else ret ());
  let thread :=
    MonitoredThread.Thread (task_type +:+ ":" +:+ PyStr.str task_id)
      (String.eqb task_type "ps") (train_and_evaluate c) MonitoredThread.Created in
  do thread <- thread_start thread;
  do thread <- (if negb (String.eqb task_type "ps")
                then thread_join thread
                else ret thread);
  ret thread.

(** Lines 84 to 95 of [main]: what happens once the task identity is known. *)
Definition orchestrate (c : collaborators) (num_workers num_ps : nat)
    (task task_type : string) (task_id : Z) : M unit :=
  do _ <- connect c;
  do _ <- iter_available_sock_addrs;
  do spec <- with_closing (
    let init_barrier := KVBarrier.Barrier "init" num_workers num_ps in
    do '(host, port) <- next_addr;
    barrier_wait init_barrier task (host +:+ ":" +:+ PyStr.str port) (init_weather c));
  do thread <- dispatch c task_type task_id spec;
  let stop_barrier := KVBarrier.Barrier "stop" num_workers num_ps in
  do _ <- barrier_wait stop_barrier task EmptyString (stop_weather c);
  match MonitoredThread.exception thread with
  | Some e => raise e
  | None => ret ()
  end.

Definition main (c : collaborators) (num_workers num_ps : nat) : M unit :=
  do task <- getenv "SKEIN_CONTAINER_ID";
  do '(task_type, task_id) <- unpack2 (PyStr.split1 "_" task);
  do task_id <- to_int (python c) task_id;
  orchestrate c num_workers num_ps task task_type task_id.

(** A process that has done nothing yet. *)
Definition boot (env : Environ.environ) (σ : KVBarrier.store) (m : PortAllocator.machine)
    : world :=
  World env σ m [].

(** *** The runs of [orchestrate], event by event *)

Definition needs_server (task_type : string) : bool :=
  negb (String.eqb task_type "evaluator") && negb (String.eqb task_type "ps").

Definition sock_addr (a : PortAllocator.Address) : string :=
  a.1 +:+ ":" +:+ PyStr.str a.2.

(** The events up to the end of the [with] block when the rendezvous
    succeeds. *)
Definition rendezvous (task : string) (a : PortAllocator.Address) : list event :=
  [Connect; Yield a; WaitEnter "init" task (sock_addr a); WaitLeave "init"; Close].

(** The events of [dispatch] up to [thread.start()]. *)
Definition launch (task_type : string) (task_id : Z) : list event :=
  [Experiment]
  ++ (if needs_server task_type then [Server task_type task_id] else [])
  ++ [Start (task_type +:+ ":" +:+ PyStr.str task_id) (String.eqb task_type "ps")].

Definition joining (task_type : string) : list event :=
  if String.eqb task_type "ps" then [] else [Join].

Definition verdict (b : MonitoredThread.behaviour) : outcome unit :=
  match b with
  | MonitoredThread.Fails e => Raises e
  | _ => Returns ()
  end.

(** Every way a run of [orchestrate] can go: how it ends and what it has
    done by then. *)
Inductive protocol (task task_type : string) (task_id : Z) (b : MonitoredThread.behaviour)
    : outcome unit → list event → Prop :=
  | no_client e :
      protocol task task_type task_id b (Raises e) []
  | no_port e :
      protocol task task_type task_id b (Raises e) [Connect; Close]
  | init_pending a :
      protocol task task_type task_id b Blocks
        [Connect; Yield a; WaitEnter "init" task (sock_addr a)]
  | init_lost a :
      protocol task task_type task_id b (Raises StoreUnavailable)
        [Connect; Yield a; WaitEnter "init" task (sock_addr a); Close]
  | collision a msg :
      protocol task task_type task_id b (Raises (RuntimeError msg)) (rendezvous task a)
  | no_experiment a e :
      protocol task task_type task_id b (Raises e) (rendezvous task a ++ [Experiment])
  | no_server a e :
      needs_server task_type = true →
      protocol task task_type task_id b (Raises e)
        (rendezvous task a ++ [Experiment; Server task_type task_id])
  | join_pending a :
      String.eqb task_type "ps" = false →
      b = MonitoredThread.StillRunning →
      protocol task task_type task_id b Blocks
        (rendezvous task a ++ launch task_type task_id ++ [Join])
  | stop_pending a r :
      r = Blocks ∨ r = Raises StoreUnavailable →
      protocol task task_type task_id b r
        (rendezvous task a ++ launch task_type task_id ++ joining task_type
         ++ [WaitEnter "stop" task EmptyString])
  | stop_done a :
      protocol task task_type task_id b (verdict b)
        (rendezvous task a ++ launch task_type task_id ++ joining task_type
         ++ [WaitEnter "stop" task EmptyString; WaitLeave "stop"]).

End DispatchTask.

(** ** Concrete runs used below *)
Module Scenario.
Import DispatchTask.

Definition dumps (spec : KVBarrier.ClusterSpec) (ty : string) (id : Z) (e : string) : string :=
  "{task: " +:+ ty +:+ ":" +:+ PyStr.str id +:+ ", environment: " +:+ e +:+ "}".

(** A machine called ["node"] whose kernel offers three ports, the first of
    which somebody else holds. *)
Definition node : PortAllocator.machine :=
  PortAllocator.fresh "node" [5000; 5001; 5002] {[5000]}.

(** A TensorFlow server that listens on [port]: it fails when the port is
    taken. *)
Definition grpc_server (port : Z) (job : string) (index : Z) (m : PortAllocator.machine)
    : option exn * PortAllocator.machine :=
  match PortAllocator.bind (PortAllocator.host m, port) m with
  | (Returns _, m') => (None, m')
  | (_, m') => (Some (Failure 3 "Could not start gRPC server"), m')
  end.

(** The foreign code of a run with two participants, [id] being the one that
    runs here and [peer] the key of the other; the unit of work behaves as
    [b].  The server listens on the port that the run publishes on [node]. *)
Definition crew (ty : string) (id : Z) (peer : string) (b : MonitoredThread.behaviour)
    : collaborators :=
  Collaborators PyStr.cpython dumps None (λ _, inr (Exp ty id)) (grpc_server 5001) b
    (KVBarrier.Reachable [("init/" +:+ peer, "peer:7000")]%string)
    (KVBarrier.Reachable [("stop/" +:+ peer, EmptyString)]%string).

(** The same run, except that the store is lost during the stop wait. *)
Definition adrift (ty : string) (id : Z) (peer : string) (b : MonitoredThread.behaviour)
    : collaborators :=
  Collaborators PyStr.cpython dumps None (λ _, inr (Exp ty id)) (grpc_server 5001) b
    (KVBarrier.Reachable [("init/" +:+ peer, "peer:7000")]%string)
    KVBarrier.Unreachable.

Definition container (task : string) : world :=
  boot {["SKEIN_CONTAINER_ID"%string := task]} ∅ node.

(** Two participants that both claim to be worker 0. *)
Definition twins : KVBarrier.system :=
  KVBarrier.System 2 0
    [KVBarrier.Participant (KVBarrier.Task "worker" 0) "node:5001";
     KVBarrier.Participant (KVBarrier.Task "worker" 0) "node:5002"].

(** Two workers and a parameter server. *)
Definition trio : KVBarrier.system :=
  KVBarrier.System 2 1
    [KVBarrier.Participant (KVBarrier.Task "worker" 1) "b:7001";
     KVBarrier.Participant (KVBarrier.Task "ps" 0) "c:7002";
     KVBarrier.Participant (KVBarrier.Task "worker" 0) "a:7000"].

End Scenario.

(** ** Sentences of the specification read to the letter

    These are compared with the program below. *)
Module Literal.
Import DispatchTask.

(** A container id [<type>_<digits>] yields the type and the number, and a
    remainder that is not a plain decimal number makes [main] fail. *)
Definition container_id_claim (task : string) : Prop :=
  ∀ c nw np w,
    environ w !! "SKEIN_CONTAINER_ID"%string = Some task →
    (∀ ty ds u, task = ty +:+ "_" +:+ ds → NilZero.uint_of_string ds = Some u →
       main c nw np w = orchestrate c nw np task ty (Z.of_uint u) w)
    ∧ (∀ ty rest, PyStr.split_first "_" task = Some (ty, rest) →
       NilZero.int_of_string rest = None →
       ∃ msg, main c nw np w = (Raises (ValueError msg), w)).

(** Every call of the init wait returns the same cluster spec, whatever
    the order of arrival; the spec holds exactly the published addresses,
    by task type and, within a type, in the order of the task indices. *)
Definition init_claim (sys : KVBarrier.system) : Prop :=
  ∃ spec : KVBarrier.ClusterSpec,
    (∀ arrival leave,
       arrival ≡ₚ seq 0 (length (KVBarrier.parts sys)) →
       leave ≡ₚ seq 0 (length (KVBarrier.parts sys)) →
       is_Some (KVBarrier.exec sys
                  (((λ i, KVBarrier.Call i KVBarrier.Init) <$> arrival)
                   ++ ((λ i, KVBarrier.Return i KVBarrier.Init spec) <$> leave))
                  KVBarrier.start))
    ∧ (∀ evs st i r,
         KVBarrier.exec sys evs KVBarrier.start = Some st →
         KVBarrier.Return i KVBarrier.Init r ∈ evs → r = spec)
    ∧ KVBarrier.addresses spec ≡ₚ KVBarrier.address <$> KVBarrier.parts sys
    ∧ (∀ ty, ∃ il : list (Z * string),
         StronglySorted KVBarrier.by_index il
         ∧ (∀ i a, (i, a) ∈ il
                   ↔ KVBarrier.Participant (KVBarrier.Task ty i) a ∈ KVBarrier.parts sys)
         ∧ spec !! ty = (if decide (il = []) then None else Some il.*2)).

(** In every run in which the unit of work ends with a failure, the
    orchestrator raises that very failure, after the stop barrier has
    completed; when the unit ends normally it returns. *)
Definition reraise_claim (c : collaborators) (nw np : nat) (w : world) : Prop :=
  ∀ n d, Start n d ∈ trace (main c nw np w).2 →
    (∀ e, train_and_evaluate c = MonitoredThread.Fails e →
       (main c nw np w).1 = Raises e ∧ WaitLeave "stop" ∈ trace (main c nw np w).2)
    ∧ (train_and_evaluate c = MonitoredThread.Finishes → (main c nw np w).1 = Returns ()).

(** The sequence is closed before the orchestrator enters the init wait. *)
Definition closed_before_init_wait (tr : list event) : Prop :=
  ∀ i key payload, tr !! i = Some (WaitEnter "init" key payload) →
    ∃ j, (j < i)%nat ∧ tr !! j = Some Close.

(** The participant never calls the stop wait. *)
Definition never_calls_stop (tr : list event) : Prop :=
  ∀ key payload, WaitEnter "stop" key payload ∉ tr.

End Literal.

(** ** The tests of the allocator *)
Module Tests.
Import PortAllocator.

(** The body of the loop of [test_iter_available_sock_addrs]: a bind by a
    new socket inside [pytest.raises(OSError)], then the assertion on the
    error number.  A bind that succeeds makes [pytest.raises] fail. *)
Definition expect_in_use (a : Address) (m : machine) : outcome unit * machine :=
  match bind a m with
  | (Raises (OSError errno), m') =>
      if decide (errno = EADDRINUSE) then (Returns (), m') else (Raises AssertionError, m')
  | (Raises e, m') => (Raises e, m')
  | (Returns _, m') => (Raises (Failure 0 "DID NOT RAISE"), m')
  | (Blocks, m') => (Blocks, m')
  end.

(** [for a in l: body(a)] *)
Fixpoint for_each (body : Address → machine → outcome unit * machine)
    (l : list Address) (m : machine) : outcome unit * machine :=
  match l with
  | [] => (Returns (), m)
  | a :: l' =>
      match body a m with
      | (Returns _, m1) => for_each body l' m1
      | (r, m1) => (r, m1)
      end
  end.

(** [test_iter_available_sock_addrs] of [tests/test__internal.py].  The
    addresses are collected in a set; [order] is the order in which the
    interpreter iterates over it.  The second component is the machine
    after the [with closing(...)] block. *)
Definition test_iter_available_sock_addrs (order : list Address → list Address)
    (m : machine) : outcome unit * machine :=
  let '(r, m1) :=
    match draw 5 (iter_available_sock_addrs m) with
    | (Returns l, m1) =>
        let sock_addrs := order (remove_dups l) in
        if decide (length sock_addrs = 5%nat)
        then for_each expect_in_use sock_addrs m1
        else (Raises AssertionError, m1)
    | (Raises e, m1) => (Raises e, m1)
    | (Blocks, m1) => (Blocks, m1)
    end in
  (r, close m1).

End Tests.

(** * Facts *)

(** ** Strings *)
Section PyStrFacts.

Example split1_worker : PyStr.split1 "_" "worker_12" = ["worker"; "12"]%string.
Proof. reflexivity. Qed.

Example int_grouped :
  PyStr.int PyStr.cpython " +1_000 " = Some 1000 ∧ PyStr.int PyStr.cpython "-12" = Some (-12).
Proof. split; reflexivity. Qed.

Example int_rejects :
  PyStr.int PyStr.cpython "1__0" = None ∧ PyStr.int PyStr.cpython "_1" = None
  ∧ PyStr.int PyStr.cpython "1_" = None ∧ PyStr.int PyStr.cpython EmptyString = None
  ∧ PyStr.int PyStr.cpython "- 1" = None ∧ PyStr.int PyStr.cpython "role_3" = None.
Proof. repeat split; reflexivity. Qed.

(** Arabic-Indic and full-width digits and a no-break space are read; the
    separator 28 and a superscript two are not. *)
Example int_unicode :
  PyStr.int PyStr.cpython "١٢" = Some 12 ∧ PyStr.int PyStr.cpython "-７" = Some (-7)
  ∧ PyStr.int PyStr.cpython " 3" = Some 3
  ∧ PyStr.int PyStr.cpython (String (ascii_of_nat 28) "1") = None
  ∧ PyStr.int PyStr.cpython "²" = None.
Proof. repeat split; reflexivity. Qed.

Example str_neg : PyStr.str (-305) = "-305"%string.
Proof. reflexivity. Qed.

Lemma split_first_app c l r :
  PyStr.occurs c l = false → PyStr.split_first c (l +:+ String c r) = Some (l, r).
Proof.
  induction l as [|a l IH]; simpl.
  - intros _. by rewrite Ascii.eqb_refl.
  - intros [Ha Hl]%orb_false_iff. rewrite Ha, (IH Hl). done.
Qed.

Lemma split_last_none c s : PyStr.occurs c s = false → PyStr.split_last c s = None.
Proof.
  induction s as [|a s IH]; simpl; [done|].
  intros [Ha Hs]%orb_false_iff. by rewrite (IH Hs), Ha.
Qed.

Lemma split_last_app c l r :
  PyStr.occurs c r = false → PyStr.split_last c (l +:+ String c r) = Some (l, r).
Proof.
  intros Hr. induction l as [|a l IH]; simpl.
  - by rewrite (split_last_none _ _ Hr), Ascii.eqb_refl.
  - by rewrite IH.
Qed.

Lemma int_digits_acc u acc :
  PyStr.int_digits (Z.pos acc) true (NilEmpty.string_of_uint u)
  = Some (Z.pos (Pos.of_uint_acc u acc)).
Proof.
  revert acc. induction u as [|u IH|u IH|u IH|u IH|u IH|u IH|u IH|u IH|u IH|u IH];
    intros acc; [done|..]; cbn [NilEmpty.string_of_uint PyStr.int_digits];
    (change (PyStr.digit_of _) with (Some 0) || change (PyStr.digit_of _) with (Some 1)
     || change (PyStr.digit_of _) with (Some 2) || change (PyStr.digit_of _) with (Some 3)
     || change (PyStr.digit_of _) with (Some 4) || change (PyStr.digit_of _) with (Some 5)
     || change (PyStr.digit_of _) with (Some 6) || change (PyStr.digit_of _) with (Some 7)
     || change (PyStr.digit_of _) with (Some 8) || change (PyStr.digit_of _) with (Some 9));
    cbv iota beta; cbn [Pos.of_uint_acc];
    match goal with
    | |- PyStr.int_digits ?z _ _ = Some (Z.pos (Pos.of_uint_acc _ ?p)) =>
        replace z with (Z.pos p) by lia
    end; apply IH.
Qed.

Lemma int_digits_uint u seen :
  u ≠ Nil ∨ seen = true →
  PyStr.int_digits 0 seen (NilEmpty.string_of_uint u) = Some (Z.of_uint u).
Proof.
  revert seen. induction u as [|u IH|u|u|u|u|u|u|u|u|u]; intros seen Hu.
  - destruct Hu as [?| ->]; done.
  - cbn [NilEmpty.string_of_uint PyStr.int_digits].
    change (PyStr.digit_of _) with (Some 0). cbv iota beta.
    change (10 * 0 + 0) with 0. rewrite IH by auto. done.
  - apply (int_digits_acc u 1).
  - apply (int_digits_acc u 2).
  - apply (int_digits_acc u 3).
  - apply (int_digits_acc u 4).
  - apply (int_digits_acc u 5).
  - apply (int_digits_acc u 6).
  - apply (int_digits_acc u 7).
  - apply (int_digits_acc u 8).
  - apply (int_digits_acc u 9).
Qed.

Lemma to_ascii_plain py a :
  (N_of_ascii a <? 127)%N = true → PyStr.to_ascii py (N_of_ascii a) = Some a.
Proof. intros Ha. unfold PyStr.to_ascii. by rewrite Ha, ascii_N_embedding. Qed.

Lemma transform_plain py s : PyStr.plain s = true → PyStr.transform py s = Some s.
Proof.
  unfold PyStr.transform. induction s as [|a s IH]; [done|].
  cbn [PyStr.plain PyStr.decode]. intros [Ha Hs]%andb_true_iff.
  specialize (IH Hs).
  assert ((N_of_ascii a <? 128)%N = true) as -> by (apply N.ltb_lt; apply N.ltb_lt in Ha; lia).
  destruct (PyStr.decode s) as [cps|]; [|done].
  cbn [fmap option_fmap option_map mbind option_bind mapM mret option_ret] in *.
  rewrite (to_ascii_plain py a Ha).
  destruct (mapM _ cps); cbn [fmap option_fmap option_map mbind option_bind mret option_ret] in *;
    [|done].
  injection IH as <-. done.
Qed.
Lemma int_plain py s :
  PyStr.plain s = true →
  PyStr.int py s
  = n ← PyStr.int_literal s;
    if PyStr.exceeds (PyStr.int_max_str_digits py) (PyStr.digit_count s) then None else Some n.
Proof. intros Hs. unfold PyStr.int. by rewrite (transform_plain py s Hs). Qed.

Lemma uint_plain u :
  PyStr.plain (NilEmpty.string_of_uint u) = true
  ∧ PyStr.digit_count (NilEmpty.string_of_uint u) = String.length (NilEmpty.string_of_uint u).
Proof. induction u; cbn; [done|by destruct IHu as [-> ->]..]. Qed.

(** [int] reads a plain string of decimal digits as the number it writes,
    unless the digits are more than the interpreter allows. *)
Lemma int_of_digits py ds u :
  NilZero.uint_of_string ds = Some u →
  PyStr.int py ds
  = if PyStr.exceeds (PyStr.int_max_str_digits py) (String.length ds)
    then None else Some (Z.of_uint u).
Proof.
  intros Hds.
  assert (u ≠ Nil) as Hu.
  { intros ->. by apply (NilZero.uint_of_string_nonnil ds). }
  apply NilZero.sus in Hds. subst ds.
  assert (NilZero.string_of_uint u = NilEmpty.string_of_uint u) as -> by by destruct u.
  destruct (uint_plain u) as [Hplain Hcount].
  rewrite (int_plain py _ Hplain), Hcount.
  assert (PyStr.int_literal (NilEmpty.string_of_uint u) = Some (Z.of_uint u)) as ->; [|done].
  rewrite <-(int_digits_uint u false) by auto.
  destruct u; done.
Qed.

Lemma uint_no_underscore u : PyStr.occurs "_" (NilEmpty.string_of_uint u) = false.
Proof. induction u; simpl; done. Qed.

Lemma str_no_underscore n : PyStr.occurs "_" (PyStr.str n) = false.
Proof.
  unfold PyStr.str.
  assert (∀ u, PyStr.occurs "_" (NilZero.string_of_uint u) = false) as H.
  { intros [|u|u|u|u|u|u|u|u|u|u]; try done; apply (uint_no_underscore (_ u)). }
  destruct (Z.to_int n); simpl; auto.
Qed.

Lemma to_int_neq_nil n : Z.to_int n ≠ Pos Nil ∧ Z.to_int n ≠ Neg Nil.
Proof.
  destruct n as [|p|p]; simpl; split; try done;
    intros [= Hp]; by apply (Unsigned.to_uint_nonnil p).
Qed.

Lemma int_of_string_str n : NilZero.int_of_string (PyStr.str n) = Some (Z.to_int n).
Proof. unfold PyStr.str. apply NilZero.isi; apply to_int_neq_nil. Qed.

End PyStrFacts.

(** ** The task identity read by [main] *)
Section TaskIdentityFacts.
Import DispatchTask.

Lemma main_split c nw np w task ty rest :
  environ w !! "SKEIN_CONTAINER_ID"%string = Some task →
  PyStr.split_first "_" task = Some (ty, rest) →
  main c nw np w = bind (to_int (python c) rest) (orchestrate c nw np task ty) w.
Proof.
  intros Henv Hsplit. unfold main, bind at 1 2, getenv, PyStr.split1.
  rewrite Henv, Hsplit. done.
Qed.

(** C10 (amended).  [main] cuts the container id at its first underscore
    only, and hands what follows to [int].  When the id has no underscore,
    or when [int] does not accept what follows the first underscore, it
    fails with a [ValueError] and has done nothing else: no port is drawn,
    the store is not touched.  When [int] accepts it, [main] goes on with
    what precedes the underscore as the type and with the number read.  In
    particular, for an id [<type>_<digits>] whose type has no underscore
    and whose digits are ASCII digits, the number is the one the digits
    write, unless they are more than the interpreter allows in a literal,
    in which case [main] fails in the same way. *)
Theorem main_task_identity c nw np w task :
  environ w !! "SKEIN_CONTAINER_ID"%string = Some task →
  (PyStr.split_first "_" task = None →
     ∃ msg, main c nw np w = (Raises (ValueError msg), w))
  ∧ (∀ ty rest, PyStr.split_first "_" task = Some (ty, rest) →
       match PyStr.int (python c) rest with
       | Some n => main c nw np w = orchestrate c nw np task ty n w
       | None => ∃ msg, main c nw np w = (Raises (ValueError msg), w)
       end)
  ∧ (∀ ty ds u, PyStr.occurs "_" ty = false → NilZero.uint_of_string ds = Some u →
       task = ty +:+ "_" +:+ ds →
       if PyStr.exceeds (PyStr.int_max_str_digits (python c)) (String.length ds)
       then ∃ msg, main c nw np w = (Raises (ValueError msg), w)
       else main c nw np w = orchestrate c nw np task ty (Z.of_uint u) w).
Proof.
  intros Henv.
  assert (∀ ty rest, PyStr.split_first "_" task = Some (ty, rest) →
            match PyStr.int (python c) rest with
            | Some n => main c nw np w = orchestrate c nw np task ty n w
            | None => ∃ msg, main c nw np w = (Raises (ValueError msg), w)
            end) as Hcut.
  { intros ty rest Hsplit.
    rewrite (main_split c nw np w _ ty rest Henv Hsplit).
    unfold bind, to_int. destruct (PyStr.int _ rest); [done|by eexists]. }
  split_and!; [|exact Hcut|].
  - intros Hsplit. unfold main, bind at 1 2, getenv, PyStr.split1.
    rewrite Henv, Hsplit. by eexists.
  - intros ty ds u Hty Hds ->.
    specialize (Hcut ty ds (split_first_app _ _ _ Hty)).
    rewrite (int_of_digits _ ds u Hds) in Hcut.
    by destruct (PyStr.exceeds _ _).
Qed.

Lemma main_task_identity_witness :
  main (Scenario.crew "worker" 12 "ps_0" MonitoredThread.Finishes) 1 1
       (Scenario.container "worker_12")
  = orchestrate (Scenario.crew "worker" 12 "ps_0" MonitoredThread.Finishes) 1 1
       "worker_12" "worker" 12 (Scenario.container "worker_12")
  ∧ (∃ msg, main (Scenario.crew "worker" 12 "ps_0" MonitoredThread.Finishes) 1 1
              (Scenario.container "my_role_3")
            = (Raises (ValueError msg), Scenario.container "my_role_3"))
  ∧ (∃ msg, main (Scenario.crew "worker" 12 "ps_0" MonitoredThread.Finishes) 1 1
              (Scenario.container "worker")
            = (Raises (ValueError msg), Scenario.container "worker")).
Proof.
  split; [|split].
  - apply (proj2 (proj2 (main_task_identity _ 1%nat 1%nat (Scenario.container "worker_12")
                    "worker_12" eq_refl)) "worker" "12" (D1 (D2 Nil))); reflexivity.
  - apply (proj1 (proj2 (main_task_identity _ 1%nat 1%nat (Scenario.container "my_role_3")
                    "my_role_3" eq_refl)) "my" "role_3"); reflexivity.
  - apply (proj1 (main_task_identity _ 1%nat 1%nat (Scenario.container "worker")
                    "worker" eq_refl)); reflexivity.
Defined.

(** The role ["a_1"] with index 2 runs in the container ["a_1_2"].  What
    follows the first underscore, ["1_2"], is not a plain decimal number,
    yet [int] reads it as 12: [main] does not fail, and goes on as task 12
    of the role ["a"]. *)
Lemma container_id_claim_fails : ¬ Literal.container_id_claim "a_1_2".
Proof.
  intros H.
  destruct (H (Scenario.crew "a" 12 "ps_0" MonitoredThread.Finishes) 1%nat 1%nat
              (Scenario.container "a_1_2") eq_refl) as [_ Herr].
  destruct (Herr "a" "1_2"%string eq_refl eq_refl) as [msg Hmsg].
  apply (f_equal fst) in Hmsg. vm_compute in Hmsg. discriminate.
Qed.

Example main_reads_a_1_2 c nw np :
  main c nw np (Scenario.container "a_1_2")
  = orchestrate c nw np "a_1_2" "a" 12 (Scenario.container "a_1_2").
Proof. by rewrite (main_split _ _ _ _ "a_1_2"%string "a"%string "1_2"%string). Qed.

End TaskIdentityFacts.

(** ** The guarded mutation of the environment *)
Section EnvironFacts.
Import Environ.

Lemma update_lookup_other (kwargs : list (string * string)) (env : environ) k :
  k ∉ kwargs.*1 → update env kwargs !! k = env !! k.
Proof.
  revert env. induction kwargs as [|[k0 v0] kwargs IH]; intros env Hk; [done|].
  rewrite fmap_cons, not_elem_of_cons in Hk. destruct Hk as [Hne Hk].
  unfold update in *. simpl. rewrite IH by done. by rewrite lookup_insert_ne.
Qed.

Lemma update_lookup_set (kwargs : list (string * string)) (env : environ) k v :
  NoDup kwargs.*1 → (k, v) ∈ kwargs → update env kwargs !! k = Some v.
Proof.
  revert env. induction kwargs as [|[k0 v0] kwargs IH]; intros env Hnd Hin.
  { by apply elem_of_nil in Hin. }
  rewrite fmap_cons, NoDup_cons in Hnd. destruct Hnd as [Hk0 Hnd].
  apply elem_of_cons in Hin as [[= -> ->]|Hin].
  - change (update env ((k0, v0) :: kwargs)) with (update (<[k0:=v0]> env) kwargs).
    rewrite update_lookup_other by done. apply lookup_insert_eq.
  - change (update env ((k0, v0) :: kwargs)) with (update (<[k0:=v0]> env) kwargs).
    by apply IH.
Qed.

Lemma find_collides_none (kwargs : list (string * string)) (env : environ) :
  (∀ k v, (k, v) ∈ kwargs → env !! k = None ∨ env !! k = Some v) →
  List.find (collides env) kwargs = None.
Proof.
  intros Hfree. destruct (List.find _ _) as [[k v]|] eqn:Hfind; [|done].
  apply List.find_some in Hfind as [Hin Hc]. apply list_elem_of_In in Hin.
  unfold collides in Hc. simpl in Hc.
  destruct (Hfree k v Hin) as [Hk|Hk]; rewrite Hk in Hc; [done|].
  by rewrite String.eqb_refl in Hc.
Qed.

Lemma find_collides_some (kwargs : list (string * string)) (env : environ) k v old :
  (k, v) ∈ kwargs → env !! k = Some old → old ≠ v →
  ∃ kv, List.find (collides env) kwargs = Some kv.
Proof.
  intros Hin Hk Hne. destruct (List.find _ _) as [kv|] eqn:Hfind; [by eexists|].
  apply list_elem_of_In in Hin.
  pose proof (List.find_none _ _ Hfind _ Hin) as Hc.
  unfold collides in Hc. simpl in Hc. rewrite Hk in Hc.
  apply negb_false_iff, String.eqb_eq in Hc. done.
Qed.

(** C6.  When the keys passed to the guarded mutation are unset, the call
    succeeds and every new value can be read at once, the other keys keeping
    theirs; when a key passed is already set to a different value, the call
    fails with a [RuntimeError] and the environment is what it was. *)
Theorem xset_environ_guarded (kwargs : list (string * string)) (env : environ) :
  NoDup kwargs.*1 →
  ((∀ k v, (k, v) ∈ kwargs → env !! k = None) →
     (xset_environ kwargs env).1 = Returns ()
     ∧ (∀ k v, (k, v) ∈ kwargs → (xset_environ kwargs env).2 !! k = Some v)
     ∧ (∀ k, k ∉ kwargs.*1 → (xset_environ kwargs env).2 !! k = env !! k))
  ∧ ((∃ k v old, (k, v) ∈ kwargs ∧ env !! k = Some old ∧ old ≠ v) →
     (∃ msg, (xset_environ kwargs env).1 = Raises (RuntimeError msg))
     ∧ (xset_environ kwargs env).2 = env).
Proof.
  intros Hnd. unfold xset_environ. split.
  - intros Hunset. rewrite find_collides_none by (intros; left; eauto).
    simpl. split_and!; [done| |].
    + intros k v Hin. by apply update_lookup_set.
    + intros k Hk. by apply update_lookup_other.
  - intros (k & v & old & Hin & Hk & Hne).
    destruct (find_collides_some kwargs env k v old) as [kv ->]; [done..|].
    simpl. split; [by eexists|done].
Qed.

Lemma xset_environ_guarded_witness :
  ((xset_environ [("foo", "boo")]%string ∅).1 = Returns ()
   ∧ (xset_environ [("foo", "boo")]%string ∅).2 !! "foo"%string = Some "boo"%string)
  ∧ ((∃ msg, (xset_environ [("foo", "boo")]%string {["foo"%string := "bar"%string]}).1
             = Raises (RuntimeError msg))
     ∧ (xset_environ [("foo", "boo")]%string {["foo"%string := "bar"%string]}).2
       = {["foo"%string := "bar"%string]}).
Proof.
  assert (NoDup [("foo", "boo")]%string.*1) as Hnd.
  { simpl. apply NoDup_singleton. }
  split.
  - destruct (proj1 (xset_environ_guarded [("foo", "boo")]%string ∅ Hnd)) as (H1 & H2 & _).
    { intros k v _. apply lookup_empty. }
    split; [exact H1|]. apply H2, list_elem_of_singleton. reflexivity.
  - apply (proj2 (xset_environ_guarded [("foo", "boo")]%string
                    {["foo"%string := "bar"%string]} Hnd)).
    exists "foo"%string, "boo"%string, "bar"%string.
    split; [apply list_elem_of_singleton; reflexivity|].
    split; [reflexivity|discriminate].
Defined.

End EnvironFacts.

(** ** [dispatch] and an environment that already has [TF_CONFIG] *)
Section DispatchCollision.
Import DispatchTask.

(** C9.  When [os.environ] already binds [TF_CONFIG] to another value than
    the one [dispatch] is about to set, [dispatch] fails with the
    [RuntimeError] of the guarded mutation and leaves the process as it
    found it: the experiment is not built, no server and no thread is
    started. *)
Theorem dispatch_collision c task_type task_id spec w old :
  environ w !! "TF_CONFIG"%string = Some old →
  old ≠ json_dumps c spec task_type task_id
          (if negb (String.eqb task_type "evaluator") && negb (String.eqb task_type "ps")
           then "google"%string else EmptyString) →
  ∃ msg, dispatch c task_type task_id spec w = (Raises (RuntimeError msg), w).
Proof.
  intros Henv Hne. unfold dispatch, bind at 1, xset_environ, Environ.xset_environ.
  simpl. unfold Environ.collides at 1. simpl. rewrite Henv.
  destruct (String.eqb_spec old (json_dumps c spec task_type task_id
    (if negb (String.eqb task_type "evaluator") && negb (String.eqb task_type "ps")
     then "google"%string else EmptyString))) as [Heq|_]; [done|].
  simpl. eexists. by destruct w.
Qed.

Lemma dispatch_collision_witness :
  ∃ msg, dispatch (Scenario.crew "worker" 0 "ps_0" MonitoredThread.Finishes) "worker" 0 ∅
           (boot {["TF_CONFIG"%string := "{}"%string]} ∅ Scenario.node)
         = (Raises (RuntimeError msg), boot {["TF_CONFIG"%string := "{}"%string]} ∅ Scenario.node).
Proof.
  apply (dispatch_collision _ "worker" 0 ∅ _ "{}"%string); [reflexivity|].
  vm_compute. discriminate.
Defined.

End DispatchCollision.

(** ** The port allocator *)
Section PortAllocatorFacts.
Import PortAllocator.

Lemma bind_any_Some m p : bind_any m = Some p → p ∈ free_ports m.
Proof.
  unfold bind_any, free_ports. intros Hp%head_Some_elem_of.
  apply list_elem_of_filter in Hp as [Hfree Hpool].
  apply elem_of_difference. split; [by apply elem_of_list_to_set|done].
Qed.

Lemma bind_any_None m : bind_any m = None → free_ports m = ∅.
Proof.
  unfold bind_any, free_ports. intros Hnone.
  apply set_eq. intros p. split; [|set_solver].
  intros [Hpool Hfree]%elem_of_difference. apply elem_of_list_to_set in Hpool.
  assert (p ∈ filter (λ p, p ∉ bound m) (ephemeral m)) as Hin
    by by apply list_elem_of_filter.
  destruct (filter _ _); [by apply elem_of_nil in Hin|done].
Qed.

Lemma next_open m :
  closed m = false → (0 < available m)%nat →
  ∃ p, p ∈ free_ports m
       ∧ next m = (Returns (host m, p),
                   Machine (host m) (ephemeral m) (held m ++ [p]) false (others m)).
Proof.
  intros Hopen Hfree. unfold next. rewrite Hopen.
  destruct (bind_any m) as [p|] eqn:Hp.
  - exists p. split; [by apply bind_any_Some|done].
  - apply bind_any_None in Hp. unfold available in Hfree.
    rewrite Hp, size_empty in Hfree. lia.
Qed.

Lemma free_ports_snoc h pool hs o p :
  free_ports (Machine h pool (hs ++ [p]) false o)
  = free_ports (Machine h pool hs false o) ∖ {[p]}.
Proof.
  unfold free_ports, bound. simpl. rewrite list_to_set_app_L. simpl. set_solver.
Qed.

Lemma available_snoc h pool hs o p :
  p ∈ free_ports (Machine h pool hs false o) →
  S (available (Machine h pool (hs ++ [p]) false o))
  = available (Machine h pool hs false o).
Proof.
  intros Hp. unfold available. rewrite free_ports_snoc.
  rewrite size_difference by set_solver. rewrite size_singleton.
  assert (size (free_ports (Machine h pool hs false o)) ≠ 0)%nat.
  { intros Hz%size_empty_inv. set_solver. }
  lia.
Qed.

Lemma draw_distinct n : ∀ m,
  closed m = false → (n ≤ available m)%nat →
  ∃ addrs m', draw n m = (Returns addrs, m')
    ∧ length addrs = n ∧ NoDup addrs
    ∧ (∀ a, a ∈ addrs → a.1 = host m ∧ a.2 ∈ free_ports m)
    ∧ closed m' = false ∧ held m' = held m ++ addrs.*2.
Proof.
  induction n as [|n IH]; intros m Hopen Hn.
  { exists [], m. simpl. rewrite app_nil_r.
    split_and!; [done|done|constructor| |done|done].
    intros a Ha. by apply elem_of_nil in Ha. }
  destruct (next_open m Hopen) as (p & Hp & Hnext); [lia|].
  destruct m as [h pool hs cl o]. simpl in *. subst cl.
  destruct (IH (Machine h pool (hs ++ [p]) false o)) as (l & m' & Hdraw & Hlen & Hnd & Hin & Hcl & Hheld).
  { done. }
  { pose proof (available_snoc h pool hs o p Hp). lia. }
  exists ((h, p) :: l), m'. rewrite Hnext, Hdraw. simpl in *.
  split_and!; [done|by rewrite Hlen| | |done|].
  - constructor; [|done]. intros Hpl. destruct (Hin _ Hpl) as [_ Hfree].
    rewrite free_ports_snoc in Hfree. set_solver.
  - intros a [->|Ha]%elem_of_cons; [done|].
    destruct (Hin _ Ha) as [? Hfree]. rewrite free_ports_snoc in Hfree.
    split; [done|set_solver].
  - by rewrite Hheld, <-app_assoc.
Qed.

(** C4.  As long as the machine has [n] free ports, drawing [n] addresses
    from an open sequence succeeds and the [n] addresses are pairwise
    distinct. *)
Theorem draw_pairwise_distinct n m :
  closed m = false → (n ≤ available m)%nat →
  ∃ addrs m', draw n m = (Returns addrs, m') ∧ length addrs = n ∧ NoDup addrs.
Proof.
  intros Hopen Hn.
  destruct (draw_distinct n m Hopen Hn) as (addrs & m' & ? & ? & ? & _).
  by exists addrs, m'.
Qed.

Lemma draw_pairwise_distinct_witness :
  ∃ addrs m', draw 2 (iter_available_sock_addrs Scenario.node) = (Returns addrs, m')
              ∧ length addrs = 2%nat ∧ NoDup addrs.
Proof.
  apply (draw_pairwise_distinct 2 (iter_available_sock_addrs Scenario.node)); [reflexivity|].
  vm_compute. lia.
Defined.

(** While the sequence is open, it holds exactly the ports it has yielded,
    and none of them is bound by anybody else. *)
Lemma run_open acts : ∀ m ys m',
  run acts m = (ys, m') → closed m' = false →
  list_to_set (held m) ## others m →
  closed m = false ∧ held m' = held m ++ ys.*2 ∧ list_to_set (held m') ## others m'.
Proof.
  induction acts as [|a acts IH]; intros m ys m' Hrun Hopen Hdisj.
  { injection Hrun as <- <-. by rewrite app_nil_r. }
  simpl in Hrun.
  destruct (step a m) as [ys1 m1] eqn:Hstep.
  destruct (run acts m1) as [ys2 m2] eqn:Hrest.
  injection Hrun as <- <-.
  destruct a as [|p|p]; simpl in Hstep.
  - unfold next in Hstep. destruct (closed m) eqn:Hcl.
    { injection Hstep as <- <-.
      destruct (IH _ _ _ Hrest Hopen Hdisj) as [? _]. congruence. }
    destruct (bind_any m) as [p|] eqn:Hp; injection Hstep as <- <-.
    + apply bind_any_Some in Hp.
      destruct (IH _ _ _ Hrest Hopen) as (_ & Hheld & Hd).
      { simpl. rewrite list_to_set_app_L. unfold free_ports, bound in Hp. set_solver. }
      simpl in Hheld. split_and!; [done| |done].
      by rewrite Hheld, <-app_assoc.
    + destruct (IH _ _ _ Hrest Hopen) as (Hcl' & _); [simpl; set_solver|done].
  - injection Hstep as <- <-. unfold bind in Hrest, IH. simpl in Hrest.
    destruct (decide (p ∈ bound m)) as [Hin|Hout]; simpl in Hrest.
    + by apply (IH _ _ _ Hrest).
    + destruct (IH _ _ _ Hrest Hopen) as (Hcl & Hheld & Hd); [|done].
      simpl. unfold bound in Hout. set_solver.
  - injection Hstep as <- <-.
    destruct (IH _ _ _ Hrest Hopen) as (Hcl & Hheld & Hd); [|done].
    simpl. set_solver.
Qed.

(** C5.  On a machine where third parties bind and release ports as they
    like, as long as the sequence is open every address it has yielded is
    refused to a third party with [EADDRINUSE]; once the sequence is
    closed, a third party can bind each of them. *)
Theorem reserved_until_closed m0 acts ys m a :
  run acts (iter_available_sock_addrs m0) = (ys, m) → closed m = false → a ∈ ys →
  (bind a m).1 = Raises (OSError EADDRINUSE) ∧ (bind a (close m)).1 = Returns ().
Proof.
  intros Hrun Hopen Ha.
  destruct (run_open acts _ _ _ Hrun Hopen) as (_ & Hheld & Hdisj).
  { simpl. set_solver. }
  simpl in Hheld.
  assert (a.2 ∈ held m) as Hin.
  { rewrite Hheld. by apply list_elem_of_fmap_2. }
  unfold bind. split.
  - rewrite decide_True; [done|]. unfold bound. set_solver.
  - rewrite decide_False; [done|]. unfold bound, close. simpl. set_solver.
Qed.

Lemma reserved_until_closed_witness :
  (bind ("node", 5001)
     (run [Draw; Bind 5002; Release 5000; Draw]
          (iter_available_sock_addrs Scenario.node)).2).1
    = Raises (OSError EADDRINUSE)
  ∧ (bind ("node", 5001)
       (close (run [Draw; Bind 5002; Release 5000; Draw]
                   (iter_available_sock_addrs Scenario.node)).2)).1
    = Returns ().
Proof.
  apply (reserved_until_closed Scenario.node
           [Draw; Bind 5002; Release 5000; Draw]
           (run [Draw; Bind 5002; Release 5000; Draw]
                (iter_available_sock_addrs Scenario.node)).1).
  - reflexivity.
  - reflexivity.
  - apply list_elem_of_In. vm_compute. left. reflexivity.
Defined.

End PortAllocatorFacts.

(** ** The runs of the orchestrator *)
Section OrchestratorFacts.
Import DispatchTask.

Lemma barrier_wait_cases b key payload weather w r w' :
  barrier_wait b key payload weather w = (r, w') →
  environ w' = environ w ∧ net w' = net w
  ∧ ((∃ spec, r = Returns spec)
      ∧ trace w' = trace w ++ [WaitEnter (KVBarrier.stage b) key payload;
                               WaitLeave (KVBarrier.stage b)]
     ∨ (r = Blocks ∨ r = Raises StoreUnavailable)
        ∧ trace w' = trace w ++ [WaitEnter (KVBarrier.stage b) key payload]).
Proof.
  unfold barrier_wait, KVBarrier.wait. destruct weather as [peers|].
  - destruct (KVBarrier.poll _ _) as [spec|]; intros [= <- <-]; cbn.
    + split_and!; [done..|]. left. rewrite <-app_assoc. eauto.
    + split_and!; [done..|]. right. eauto.
  - intros [= <- <-]; cbn. split_and!; [done..|]. right. eauto.
Qed.

Lemma dispatch_cases c ty id spec w r w' :
  dispatch c ty id spec w = (r, w') →
  (∃ msg, r = Raises (RuntimeError msg) ∧ trace w' = trace w)
  ∨ (∃ e, r = Raises e ∧ trace w' = trace w ++ [Experiment])
  ∨ (∃ e, needs_server ty = true ∧ r = Raises e
          ∧ trace w' = trace w ++ [Experiment; Server ty id])
  ∨ (String.eqb ty "ps" = false ∧ train_and_evaluate c = MonitoredThread.StillRunning
     ∧ r = Blocks ∧ trace w' = trace w ++ launch ty id ++ [Join])
  ∨ (∃ t, r = Returns t
          ∧ verdict (train_and_evaluate c)
            = from_option Raises (Returns ()) (MonitoredThread.exception t)
          ∧ trace w' = trace w ++ launch ty id ++ joining ty).
Proof.
  unfold dispatch.
  change (negb (String.eqb ty "evaluator") && negb (String.eqb ty "ps")) with (needs_server ty).
  unfold bind at 1, xset_environ, Environ.xset_environ.
  destruct (find _ _) as [kv|].
  { intros [= <- <-]. left. eauto. }
  unfold bind at 1, call_experiment_fn. cbn [environ kv net trace].
  destruct (experiment_fn c _) as [e|[cty cid]].
  { intros [= <- <-]. right. left. eauto. }
  unfold bind at 1, assert. cbn [config_task_type config_task_id].
  destruct (String.eqb_spec cty ty) as [->|_]; [|intros [= <- <-]; right; left; eauto].
  unfold ret at 1. unfold bind at 1.
  destruct (Z.eqb_spec cid id) as [->|_]; [|intros [= <- <-]; right; left; eauto].
  unfold ret at 1. unfold launch, joining. unfold bind at 1.
  destruct (needs_server ty) eqn:Hsrv.
  - unfold start_server. cbn [environ kv net trace].
    destruct (server c ty id _) as [[e|] m1].
    { intros [= <- <-]. do 2 right. left. exists e. cbn. by rewrite <-app_assoc. }
    unfold bind at 1, thread_start, bind at 1, emit, ret at 1.
    cbn [environ kv net trace MonitoredThread.name MonitoredThread.daemon].
    assert (String.eqb ty "ps" = false) as Hps.
    { unfold needs_server in Hsrv. apply andb_true_iff in Hsrv as [_ H]. by apply negb_true_iff. }
    rewrite Hps. cbn [negb].
    unfold bind at 1, thread_join, MonitoredThread.join, MonitoredThread.start.
    cbn [environ kv net trace MonitoredThread.target MonitoredThread.name MonitoredThread.daemon].
    destruct (train_and_evaluate c) eqn:Hb; intros [= <- <-]; cbn; rewrite <-!app_assoc.
    + do 4 right. eexists. eauto.
    + do 4 right. eexists. eauto.
    + do 3 right. left. eauto.
  - unfold ret at 1. unfold bind at 1, thread_start, bind at 1, emit, ret at 1.
    cbn [environ kv net trace MonitoredThread.name MonitoredThread.daemon].
    destruct (String.eqb ty "ps") eqn:Hps; cbn [negb].
    + unfold ret, bind. intros [= <- <-]. cbn; rewrite <-!app_assoc.
      do 4 right. eexists. split_and!; [done| |done].
      cbn. by destruct (train_and_evaluate c).
    + unfold bind at 1, thread_join, MonitoredThread.join, MonitoredThread.start.
      cbn [environ kv net trace MonitoredThread.target MonitoredThread.name MonitoredThread.daemon].
      destruct (train_and_evaluate c) eqn:Hb; intros [= <- <-]; cbn; rewrite <-!app_assoc.
      * do 4 right. eexists. eauto.
      * do 4 right. eexists. eauto.
      * do 3 right. left. eauto.
Qed.

Lemma rendezvous_cases nw np task weather w r w' :
  with_closing
    (do '(host, port) <- next_addr;
     barrier_wait (KVBarrier.Barrier "init" nw np) task
       (host +:+ ":" +:+ PyStr.str port) weather) w = (r, w') →
  (∃ e, r = Raises e ∧ trace w' = trace w ++ [Close])
  ∨ (∃ a, r = Blocks ∧ trace w' = trace w ++ [Yield a; WaitEnter "init" task (sock_addr a)]
          ∧ PortAllocator.next (net w) = (Returns a, net w'))
  ∨ (∃ a, r = Raises StoreUnavailable
          ∧ trace w' = trace w ++ [Yield a; WaitEnter "init" task (sock_addr a); Close])
  ∨ (∃ a spec, r = Returns spec
          ∧ trace w' = trace w ++ [Yield a; WaitEnter "init" task (sock_addr a);
                                   WaitLeave "init"; Close]).
Proof.
  unfold with_closing, bind at 1, next_addr.
  destruct (PortAllocator.next (net w)) as [[[h p]|e|] m1] eqn:Hnext.
  - destruct (barrier_wait _ _ _ _ _) as [r1 w1] eqn:Hwait.
    apply barrier_wait_cases in Hwait as (_ & Hnet & Hwait). cbn in Hwait, Hnet.
    destruct Hwait as [[[spec ->] Htr]|[[-> | ->] Htr]]; intros [= <- <-]; cbn;
      rewrite Htr, <-!app_assoc.
    + do 3 right. by exists (h, p), spec.
    + right. left. exists (h, p). split_and!; [done..|]. by rewrite Hnet.
    + do 2 right. left. by exists (h, p).
  - intros [= <- <-]. left. eauto.
  - intros [= <- <-]. unfold PortAllocator.next in Hnext. repeat case_match; simplify_eq.
Qed.

Ltac not_waiting H ty :=
  unfold rendezvous, launch, joining in H;
  destruct (needs_server ty); destruct (String.eqb ty "ps");
  cbn in H; simplify_eq.

(** Every run of [orchestrate] follows the protocol, and a run that is
    waiting in the init barrier still holds the port it has published. *)
Lemma orchestrate_runs c nw np task ty id env σ m r w' :
  orchestrate c nw np task ty id (boot env σ m) = (r, w') →
  protocol task ty id (train_and_evaluate c) r (trace w')
  ∧ (∀ key payload, last (trace w') = Some (WaitEnter "init" key payload) →
       ∃ a, payload = sock_addr a
            ∧ PortAllocator.next (PortAllocator.iter_available_sock_addrs m)
              = (Returns a, net w')).
Proof.
  unfold orchestrate, boot. unfold bind at 1, connect.
  destruct (from_current c) as [e|].
  { intros [= <- <-]. split; [constructor|done]. }
  unfold emit. cbn [environ kv net trace app].
  unfold bind at 1, iter_available_sock_addrs. cbn [environ kv net trace].
  unfold bind at 1.
  destruct (with_closing _ _) as [r1 w1] eqn:Hinit.
  apply rendezvous_cases in Hinit. cbn [trace net app] in Hinit.
  destruct Hinit as [(e & -> & Htr)|[(a & -> & Htr & Hnext)|[(a & -> & Htr)|(a & spec & -> & Htr)]]].
  1-3: intros [= <- <-]; rewrite Htr; split; [constructor|intros key payload Hlast].
  1, 3: done.
  { injection Hlast as <- <-. eauto. }
  unfold bind at 1.
  destruct (dispatch _ _ _ _ _) as [r2 w2] eqn:Hdisp.
  apply dispatch_cases in Hdisp. rewrite Htr in Hdisp.
  change (Connect :: _) with (rendezvous task a) in Hdisp.
  destruct Hdisp as [(msg & -> & Htr2)|[(e & -> & Htr2)|[(e & Hsrv & -> & Htr2)
    |[(Hps & Hb & -> & Htr2)|(t & -> & Hv & Htr2)]]]].
  1-4: intros [= <- <-]; rewrite Htr2;
    (split; [by constructor|intros key payload Hlast; not_waiting Hlast ty]).
  unfold bind at 1.
  destruct (barrier_wait _ _ _ _ _) as [r3 w3] eqn:Hstop.
  apply barrier_wait_cases in Hstop as (_ & _ & Hstop). cbn [KVBarrier.stage] in Hstop.
  rewrite Htr2, <-!app_assoc in Hstop.
  destruct Hstop as [[[spec' ->] Htr3]|[Hr Htr3]].
  - destruct (MonitoredThread.exception t); cbn [from_option] in Hv;
      unfold raise, ret; intros [= <- <-]; rewrite Htr3, <-Hv;
      (split; [constructor|intros key payload Hlast; not_waiting Hlast ty]).
  - destruct Hr as [-> | ->]; intros [= <- <-]; rewrite Htr3;
      (split; [constructor; auto|intros key payload Hlast; not_waiting Hlast ty]).
Qed.

Lemma orchestrate_protocol c nw np task ty id env σ m r w' :
  orchestrate c nw np task ty id (boot env σ m) = (r, w') →
  protocol task ty id (train_and_evaluate c) r (trace w').
Proof. intros Hrun. by apply orchestrate_runs in Hrun as [? _]. Qed.

Lemma main_protocol c nw np env σ m r w' :
  main c nw np (boot env σ m) = (r, w') →
  (∃ e, r = Raises e ∧ trace w' = [])
  ∨ (∃ task ty rest id,
       env !! "SKEIN_CONTAINER_ID"%string = Some task
       ∧ PyStr.split_first "_" task = Some (ty, rest)
       ∧ PyStr.int (python c) rest = Some id
       ∧ protocol task ty id (train_and_evaluate c) r (trace w')).
Proof.
  unfold main, bind at 1, getenv, boot. cbn [environ].
  destruct (env !! _) as [task|] eqn:Henv; [|intros [= <- <-]; left; eauto].
  unfold bind at 1, PyStr.split1.
  destruct (PyStr.split_first "_" task) as [[ty rest]|] eqn:Hsplit;
    [|intros [= <- <-]; left; eauto].
  cbn [unpack2]. unfold ret at 1. unfold bind at 1, to_int.
  destruct (PyStr.int _ rest) as [id|] eqn:Hint; [|intros [= <- <-]; left; eauto].
  unfold ret at 1. intros Hrun%orchestrate_protocol.
  right. by exists task, ty, rest, id.
Qed.

Lemma barrier_wait_weather b key payload weather w r w' :
  barrier_wait b key payload weather w = (r, w') →
  match weather with
  | KVBarrier.Unreachable => r = Raises StoreUnavailable
  | KVBarrier.Reachable _ => r ≠ Raises StoreUnavailable
  end.
Proof.
  unfold barrier_wait, KVBarrier.wait. destruct weather as [peers|].
  - destruct (KVBarrier.poll _ _); by intros [= <- <-].
  - by intros [= <- <-].
Qed.

(** A run that has entered the stop wait ends with the error of the store
    when the store is lost there; otherwise it stays blocked until the
    barrier completes. *)
Lemma orchestrate_stop_weather c nw np task ty id env σ m r w' key payload :
  orchestrate c nw np task ty id (boot env σ m) = (r, w') →
  WaitEnter "stop" key payload ∈ trace w' →
  match stop_weather c with
  | KVBarrier.Unreachable => r = Raises StoreUnavailable
  | KVBarrier.Reachable _ => WaitLeave "stop" ∉ trace w' → r = Blocks
  end.
Proof.
  unfold orchestrate, boot. unfold bind at 1, connect.
  destruct (from_current c) as [e|].
  { intros [= <- <-] Hin. by apply elem_of_nil in Hin. }
  unfold emit. cbn [environ kv net trace app].
  unfold bind at 1, iter_available_sock_addrs. cbn [environ kv net trace].
  unfold bind at 1.
  destruct (with_closing _ _) as [r1 w1] eqn:Hinit.
  apply rendezvous_cases in Hinit. cbn [trace net app] in Hinit.
  destruct Hinit as [(e & -> & Htr)|[(a & -> & Htr & Hnext)|[(a & -> & Htr)|(a & spec & -> & Htr)]]].
  1-3: intros [= <- <-] Hin; exfalso; rewrite Htr in Hin; revert Hin; clear; set_solver.
  unfold bind at 1.
  destruct (dispatch _ _ _ _ _) as [r2 w2] eqn:Hdisp.
  apply dispatch_cases in Hdisp. rewrite Htr in Hdisp.
  destruct Hdisp as [(msg & -> & Htr2)|[(e & -> & Htr2)|[(e & Hsrv & -> & Htr2)
    |[(Hps & Hb & -> & Htr2)|(t & -> & Hv & Htr2)]]]].
  1-4: intros [= <- <-] Hin; exfalso; rewrite Htr2 in Hin; unfold launch in Hin;
    destruct (needs_server ty); revert Hin; clear; set_solver.
  unfold bind at 1.
  destruct (barrier_wait _ _ _ _ _) as [r3 w3] eqn:Hstop.
  pose proof (barrier_wait_weather _ _ _ _ _ _ _ Hstop) as Hweather.
  apply barrier_wait_cases in Hstop as (_ & _ & Hstop). cbn [KVBarrier.stage] in Hstop.
  destruct Hstop as [[[spec' ->] Htr3]|[Hr Htr3]].
  - destruct (MonitoredThread.exception t); unfold raise, ret; intros [= <- <-] _;
      (destruct (stop_weather c); [|done]); intros Hno; exfalso; apply Hno;
      rewrite Htr3; set_solver.
  - destruct Hr as [-> | ->]; intros [= <- <-] _; by destruct (stop_weather c).
Qed.

(** A run of [main] either fails on the container id and has done
    nothing, or is the run of [orchestrate] on the identity it has read. *)
Lemma main_orchestrates c nw np env σ m r w' :
  main c nw np (boot env σ m) = (r, w') →
  (w' = boot env σ m ∧ ∃ e, r = Raises e)
  ∨ (∃ task ty rest id,
       env !! "SKEIN_CONTAINER_ID"%string = Some task
       ∧ PyStr.split_first "_" task = Some (ty, rest)
       ∧ PyStr.int (python c) rest = Some id
       ∧ orchestrate c nw np task ty id (boot env σ m) = (r, w')).
Proof.
  unfold main, bind at 1, getenv, boot. cbn [environ].
  destruct (env !! _) as [task|] eqn:Henv; [|intros [= <- <-]; left; eauto].
  unfold bind at 1, PyStr.split1.
  destruct (PyStr.split_first "_" task) as [[ty rest]|] eqn:Hsplit;
    [|intros [= <- <-]; left; eauto].
  cbn [unpack2]. unfold ret at 1. unfold bind at 1, to_int.
  destruct (PyStr.int _ rest) as [id|] eqn:Hint; [|intros [= <- <-]; left; eauto].
  unfold ret at 1. intros Hrun. right. by exists task, ty, rest, id.
Qed.

Lemma next_Returns m a m' :
  PortAllocator.next m = (Returns a, m') →
  PortAllocator.closed m' = false ∧ a.2 ∈ PortAllocator.held m'.
Proof.
  unfold PortAllocator.next. destruct (PortAllocator.closed m); [done|].
  destruct (PortAllocator.bind_any m); [|done].
  intros [= <- <-]. cbn. split; [done|]. apply elem_of_app. right. by left.
Qed.

Ltac shapes ty :=
  unfold rendezvous, launch, joining, needs_server in *;
  destruct (String.eqb ty "evaluator"); destruct (String.eqb ty "ps") eqn:?;
  cbn [negb andb app] in *.

Ltac at_index H :=
  repeat match type of H with
         | (_ :: _) !! ?i = Some _ => destruct i as [|i]; cbn [lookup list_lookup] in H
         end; simplify_eq.

Ltac absurd_member H := exfalso; revert H; clear; set_solver.

(** C3 (amended).  In a run whose stop barrier has completed, completing
    it is the last thing the orchestrator has done, and it then raises the
    very failure with which the unit of work ended, or returns when the
    unit ended normally.  A run that has started its unit and whose stop
    barrier has not completed raises nothing of the unit: when the store
    is lost during the stop wait, the run ends with the error of the
    store, which takes the place of the failure of the unit; when the
    store is reachable, the run stays blocked in the wait. *)
Theorem main_reraises_after_stop c nw np env σ m r w' :
  main c nw np (boot env σ m) = (r, w') →
  (WaitLeave "stop" ∈ trace w' →
     last (trace w') = Some (WaitLeave "stop")
     ∧ (∀ e, train_and_evaluate c = MonitoredThread.Fails e → r = Raises e)
     ∧ (train_and_evaluate c = MonitoredThread.Finishes → r = Returns ()))
  ∧ (∀ n d, Start n d ∈ trace w' → WaitLeave "stop" ∉ trace w' →
     r = Blocks ∨ r = Raises StoreUnavailable)
  ∧ (∀ key payload, WaitEnter "stop" key payload ∈ trace w' →
     stop_weather c = KVBarrier.Unreachable → r = Raises StoreUnavailable)
  ∧ (∀ key payload peers, WaitEnter "stop" key payload ∈ trace w' →
     stop_weather c = KVBarrier.Reachable peers → WaitLeave "stop" ∉ trace w' →
     r = Blocks).
Proof.
  intros Hmain.
  assert ((∀ key payload, WaitEnter "stop" key payload ∈ trace w' →
             stop_weather c = KVBarrier.Unreachable → r = Raises StoreUnavailable)
          ∧ (∀ key payload peers, WaitEnter "stop" key payload ∈ trace w' →
               stop_weather c = KVBarrier.Reachable peers → WaitLeave "stop" ∉ trace w' →
               r = Blocks)) as [Hlost Hblocked].
  { destruct (main_orchestrates _ _ _ _ _ _ _ _ Hmain)
      as [[-> _]|(task & ty & rest & id & _ & _ & _ & Hrun)].
    { split; [intros key payload Hin|intros key payload peers Hin];
        by apply elem_of_nil in Hin. }
    split; [intros key payload Hin Hw|intros key payload peers Hin Hw];
      pose proof (orchestrate_stop_weather _ _ _ _ _ _ _ _ _ _ _ _ _ Hrun Hin) as H;
      by rewrite Hw in H. }
  revert Hmain.
  intros [(e & -> & Htr)|(task & ty & rest & id & _ & _ & _ & Hrun)]%main_protocol.
  { split_and!; [rewrite Htr; intros H|rewrite Htr; intros n d H|done..];
      by apply elem_of_nil in H. }
  split_and!; [| |done..].
  - intros Hstop.
    assert (r = verdict (train_and_evaluate c) ∧ last (trace w') = Some (WaitLeave "stop"))
      as [-> Hlast].
    { destruct Hrun; shapes ty; try absurd_member Hstop; done. }
    split_and!; [done|by intros e ->|by intros ->].
  - intros n d Hstart Hstop.
    destruct Hrun; shapes ty; try absurd_member Hstart; try absurd_member Hstop; auto.
Qed.

Lemma main_reraises_after_stop_witness :
  (main (Scenario.crew "worker" 0 "ps_0" (MonitoredThread.Fails (Failure 7 "boom"))) 1 1
        (Scenario.container "worker_0")).1
  = Raises (Failure 7 "boom")
  ∧ (main (Scenario.adrift "worker" 0 "ps_0" (MonitoredThread.Fails (Failure 7 "boom"))) 1 1
          (Scenario.container "worker_0")).1
    = Raises StoreUnavailable.
Proof.
  split.
  - destruct (main_reraises_after_stop
                (Scenario.crew "worker" 0 "ps_0" (MonitoredThread.Fails (Failure 7 "boom")))
                1%nat 1%nat {["SKEIN_CONTAINER_ID"%string := "worker_0"%string]} ∅
                Scenario.node _ _ (surjective_pairing _)) as [Hdone _].
    destruct Hdone as (_ & Hfail & _).
    + apply list_elem_of_In. vm_compute. do 10 right. left. reflexivity.
    + apply (Hfail _ eq_refl).
  - destruct (main_reraises_after_stop
                (Scenario.adrift "worker" 0 "ps_0" (MonitoredThread.Fails (Failure 7 "boom")))
                1%nat 1%nat {["SKEIN_CONTAINER_ID"%string := "worker_0"%string]} ∅
                Scenario.node _ _ (surjective_pairing _)) as (_ & _ & Hlost & _).
    apply (Hlost "worker_0"%string EmptyString); [|reflexivity].
    apply list_elem_of_In. vm_compute. do 9 right. left. reflexivity.
Defined.

(** The unit of a worker fails and the store is lost during the stop
    wait: the run ends with the error of the store, not with the failure
    of the unit. *)
Lemma reraise_claim_fails :
  ¬ Literal.reraise_claim
      (Scenario.adrift "worker" 0 "ps_0" (MonitoredThread.Fails (Failure 7 "boom"))) 1 1
      (Scenario.container "worker_0").
Proof.
  intros H. destruct (H "worker:0"%string false) as [Hfail _].
  { apply list_elem_of_In. vm_compute. do 7 right. left. reflexivity. }
  destruct (Hfail _ eq_refl) as [Hr _]. vm_compute in Hr. discriminate.
Qed.

(** C7 (amended).  The sequence is not closed before the init wait: the
    orchestrator enters the wait right after drawing the address it
    publishes, and every [Close] comes later.  While it is blocked in the
    wait the sequence is open and a third party cannot bind the address.
    When the wait returns the sequence is closed at once, and [dispatch]
    starts only after that. *)
Theorem allocator_closed_after_init_wait c nw np env σ m r w' i key payload :
  main c nw np (boot env σ m) = (r, w') →
  trace w' !! i = Some (WaitEnter "init" key payload) →
  (∀ j, trace w' !! j = Some Close → (i < j)%nat)
  ∧ (∃ a, trace w' !! pred i = Some (Yield a) ∧ payload = sock_addr a)
  ∧ (trace w' !! S i = None →
     PortAllocator.closed (net w') = false
     ∧ ∃ a, payload = sock_addr a
            ∧ (PortAllocator.bind a (net w')).1 = Raises (OSError EADDRINUSE))
  ∧ (trace w' !! S i = Some (WaitLeave "init") → trace w' !! S (S i) = Some Close)
  ∧ (∀ j, trace w' !! j = Some Experiment → (S (S i) < j)%nat).
Proof.
  intros Hmain Hi.
  assert (trace w' !! S i = None →
          PortAllocator.closed (net w') = false
          ∧ ∃ a, payload = sock_addr a
                 ∧ (PortAllocator.bind a (net w')).1 = Raises (OSError EADDRINUSE)) as Hheld.
  { intros Hend.
    assert (last (trace w') = Some (WaitEnter "init" key payload)) as Hlast.
    { rewrite last_lookup. apply lookup_ge_None in Hend.
      apply lookup_lt_Some in Hi as Hlt.
      by replace (pred (length (trace w'))) with i by lia. }
    revert Hmain. unfold main, bind at 1, getenv, boot. cbn [environ].
    destruct (env !! _) as [task|]; [|intros [= <- <-]; done].
    unfold bind at 1. destruct (PyStr.split1 _ _) as [|ty [|rest [|]]]; cbn [unpack2];
      try (intros [= <- <-]; done).
    unfold ret at 1. unfold bind at 1, to_int.
    destruct (PyStr.int _ rest) as [id|]; [|intros [= <- <-]; done].
    unfold ret at 1. intros Hrun.
    apply orchestrate_runs in Hrun as [_ Hwaiting].
    destruct (Hwaiting _ _ Hlast) as (a & -> & [Hopen Hin]%next_Returns).
    split; [done|]. exists a. split; [done|].
    unfold PortAllocator.bind. rewrite decide_True; [done|].
    unfold PortAllocator.bound. set_solver. }
  split_and!; [| | exact Hheld | |]; clear Hheld;
    apply main_protocol in Hmain
      as [(e & -> & Htr)|(task & ty & rest & id & _ & _ & _ & Hrun)];
    try (by rewrite Htr in Hi);
    destruct Hrun; shapes ty; at_index Hi;
    first [ intros j Hj; at_index Hj; lia | by eauto ].
Qed.

Lemma allocator_closed_after_init_wait_witness :
  ∃ a, (trace (main (Scenario.crew "worker" 0 "ps_0" MonitoredThread.Finishes) 1 1
                 (Scenario.container "worker_0")).2) !! 1%nat
       = Some (Yield a)
       ∧ "node:5001"%string = sock_addr a.
Proof.
  destruct (allocator_closed_after_init_wait
              (Scenario.crew "worker" 0 "ps_0" MonitoredThread.Finishes)
              1%nat 1%nat {["SKEIN_CONTAINER_ID"%string := "worker_0"%string]} ∅
              Scenario.node _ _ 2%nat "worker_0" "node:5001"
              (surjective_pairing _)) as (_ & Ha & _).
  - vm_compute. reflexivity.
  - exact Ha.
Defined.

(** In the run of a worker the sequence is closed after the init wait has
    been entered and left, not before. *)
Lemma closed_before_init_wait_fails :
  ¬ Literal.closed_before_init_wait
      (trace (main (Scenario.crew "worker" 0 "ps_0" MonitoredThread.Finishes) 1 1
                (Scenario.container "worker_0")).2).
Proof.
  intros H.
  destruct (H 2%nat "worker_0"%string "node:5001"%string) as (j & Hj & Hclose).
  { vm_compute. reflexivity. }
  destruct j as [|[|j]]; [vm_compute in Hclose; discriminate..|lia].
Qed.

(** C8 (amended).  For the role ["ps"] the orchestrator never joins the
    unit of work, which it starts as a daemon; the next thing it does is to
    enter the stop wait, like every other role.  As long as the stop
    barrier has not completed, the process stays blocked in that wait when
    the store is reachable, and ends with the error of the store when the
    store is lost. *)
Theorem ps_enters_stop_wait c nw np env σ m r w' task rest :
  main c nw np (boot env σ m) = (r, w') →
  env !! "SKEIN_CONTAINER_ID"%string = Some task →
  PyStr.split_first "_" task = Some ("ps"%string, rest) →
  (Join ∉ trace w')
  ∧ (∀ i n d, trace w' !! i = Some (Start n d) →
       d = true ∧ trace w' !! S i = Some (WaitEnter "stop" task EmptyString))
  ∧ (∀ n d, Start n d ∈ trace w' → WaitLeave "stop" ∉ trace w' →
       r = Blocks ∨ r = Raises StoreUnavailable)
  ∧ (∀ n d peers, Start n d ∈ trace w' → stop_weather c = KVBarrier.Reachable peers →
       WaitLeave "stop" ∉ trace w' → r = Blocks)
  ∧ (∀ n d, Start n d ∈ trace w' → stop_weather c = KVBarrier.Unreachable →
       r = Raises StoreUnavailable).
Proof.
  intros Hmain Henv Hsplit.
  assert (∀ n d, Start n d ∈ trace w' →
            match stop_weather c with
            | KVBarrier.Unreachable => r = Raises StoreUnavailable
            | KVBarrier.Reachable _ => WaitLeave "stop" ∉ trace w' → r = Blocks
            end) as Hweather.
  { intros n d Hstart.
    destruct (main_orchestrates _ _ _ _ _ _ _ _ Hmain)
      as [[-> _]|(task' & ty & rest' & id & Henv' & Hsplit' & _ & Hrun)].
    { by apply elem_of_nil in Hstart. }
    simplify_eq.
    apply (orchestrate_stop_weather _ _ _ _ _ _ _ _ _ _ _ task EmptyString Hrun).
    apply orchestrate_protocol in Hrun.
    destruct Hrun; unfold rendezvous, launch, joining, needs_server in *;
      cbn in *; try absurd_member Hstart; set_solver. }
  revert Hmain.
  intros [(e & -> & Htr)|(task' & ty & rest' & id & Henv' & Hsplit' & _ & Hrun)]%main_protocol.
  { rewrite Htr. split_and!; [set_solver|done|set_solver|..];
      intros n d; [intros peers|]; intros Hin; by apply elem_of_nil in Hin. }
  simplify_eq.
  split_and!.
  - destruct Hrun; unfold rendezvous, launch, joining, needs_server in *;
      cbn in *; try done; set_solver.
  - intros i n d Hi.
    destruct Hrun; unfold rendezvous, launch, joining, needs_server in *;
      cbn in *; try done; at_index Hi; done.
  - intros n d Hstart Hstop.
    destruct Hrun; unfold rendezvous, launch, joining, needs_server in *;
      cbn in *; try absurd_member Hstart; try absurd_member Hstop; auto.
  - intros n d peers Hstart Hw. specialize (Hweather n d Hstart). by rewrite Hw in Hweather.
  - intros n d Hstart Hw. specialize (Hweather n d Hstart). by rewrite Hw in Hweather.
Qed.

Lemma ps_enters_stop_wait_witness :
  (Join ∉ trace (main (Scenario.crew "ps" 0 "worker_0" MonitoredThread.StillRunning) 1 1
                   (Scenario.container "ps_0")).2)
  ∧ (trace (main (Scenario.crew "ps" 0 "worker_0" MonitoredThread.StillRunning) 1 1
              (Scenario.container "ps_0")).2) !! 7%nat
    = Some (WaitEnter "stop" "ps_0" EmptyString)
  ∧ (main (Scenario.adrift "ps" 0 "worker_0" MonitoredThread.StillRunning) 1 1
          (Scenario.container "ps_0")).1 = Raises StoreUnavailable.
Proof.
  split; [|split].
  - destruct (ps_enters_stop_wait
                (Scenario.crew "ps" 0 "worker_0" MonitoredThread.StillRunning)
                1%nat 1%nat {["SKEIN_CONTAINER_ID"%string := "ps_0"%string]} ∅
                Scenario.node _ _ "ps_0" "0" (surjective_pairing _))
      as (Hjoin & _); [reflexivity|reflexivity|]. exact Hjoin.
  - destruct (ps_enters_stop_wait
                (Scenario.crew "ps" 0 "worker_0" MonitoredThread.StillRunning)
                1%nat 1%nat {["SKEIN_CONTAINER_ID"%string := "ps_0"%string]} ∅
                Scenario.node _ _ "ps_0" "0" (surjective_pairing _))
      as (_ & Hnext & _); [reflexivity|reflexivity|].
    apply (Hnext 6%nat "ps:0"%string true). vm_compute. reflexivity.
  - destruct (ps_enters_stop_wait
                (Scenario.adrift "ps" 0 "worker_0" MonitoredThread.StillRunning)
                1%nat 1%nat {["SKEIN_CONTAINER_ID"%string := "ps_0"%string]} ∅
                Scenario.node _ _ "ps_0" "0" (surjective_pairing _))
      as (_ & _ & _ & _ & Hlost); [reflexivity|reflexivity|].
    apply (Hlost "ps:0"%string true); [|reflexivity].
    apply list_elem_of_In. vm_compute. do 6 right. left. reflexivity.
Defined.

(** The run of a parameter server does enter the stop wait. *)
Lemma never_calls_stop_fails :
  ¬ Literal.never_calls_stop
      (trace (main (Scenario.crew "ps" 0 "worker_0" MonitoredThread.StillRunning) 1 1
                (Scenario.container "ps_0")).2).
Proof.
  intros H. apply (H "ps_0"%string EmptyString).
  apply list_elem_of_In. vm_compute. do 7 right. left. reflexivity.
Qed.

End OrchestratorFacts.

(** ** The rendezvous *)
Section KVBarrierFacts.
Import KVBarrier.

Lemma deserialize_serialize t : deserialize (serialize t) = Some t.
Proof.
  destruct t as [ty i]. unfold deserialize.
  change (serialize (Task ty i)) with (ty +:+ String "_" (PyStr.str i)).
  rewrite split_last_app by apply str_no_underscore. cbn.
  rewrite int_of_string_str. cbn. rewrite DecimalZ.of_to.
  by rewrite decide_True.
Qed.

#[local] Instance serialize_inj : Inj (=) (=) serialize.
Proof.
  intros t1 t2 Heq. apply (inj Some).
  by rewrite <-!deserialize_serialize, Heq.
Qed.

Lemma strip_prefix_app p s : strip_prefix p (p +:+ s) = Some s.
Proof.
  induction p as [|a p IH]; simpl; [done|].
  by rewrite Ascii.eqb_refl.
Qed.

Lemma strip_prefix_Some p s r : strip_prefix p s = Some r → s = p +:+ r.
Proof.
  revert s. induction p as [|a p IH]; intros s; simpl; [by intros [= ->]|].
  destruct s as [|b s]; [done|].
  destruct (Ascii.eqb_spec a b) as [->|]; [|done].
  intros Hs. by rewrite (IH _ Hs).
Qed.

Lemma append_assoc (a b c : string) : (a +:+ b) +:+ c = a +:+ b +:+ c.
Proof.
  induction a as [|x a IH]; [done|].
  change (String x ((a +:+ b) +:+ c) = String x (a +:+ b +:+ c)). by rewrite IH.
Qed.

Lemma under_Some ph kv k v :
  under ph kv = Some (k, v) ↔ kv = (phase_key ph k, v).
Proof.
  destruct kv as [key val]. unfold under, phase_key. cbn. split.
  - destruct (strip_prefix _ _) as [r|] eqn:Hr; [|done].
    intros [= -> ->]. apply strip_prefix_Some in Hr. rewrite Hr.
    f_equal. by rewrite append_assoc.
  - intros [= -> ->].
    rewrite <-append_assoc.
    by rewrite strip_prefix_app.
Qed.

Lemma published_spec ph (σ : store) k v :
  (k, v) ∈ published ph σ ↔ σ !! phase_key ph k = Some v.
Proof.
  unfold published. rewrite list_elem_of_omap. split.
  - intros (kv & Hin & Hkv). apply under_Some in Hkv as ->.
    by apply elem_of_map_to_list in Hin.
  - intros Hσ. exists (phase_key ph k, v). split.
    + by apply elem_of_map_to_list.
    + by apply under_Some.
Qed.

Lemma published_NoDup ph (σ : store) : NoDup (published ph σ).*1.
Proof.
  unfold published. pose proof (NoDup_fst_map_to_list σ) as Hnd.
  induction (map_to_list σ) as [|[key val] l IH]; [constructor|].
  rewrite fmap_cons in Hnd. apply NoDup_cons in Hnd as [Hkey Hnd].
  cbn [omap list_omap]. destruct (under ph (key, val)) as [[k v]|] eqn:Hk; [|by apply IH].
  cbn. apply NoDup_cons. split; [|by apply IH].
  intros Hin. apply Hkey.
  apply list_elem_of_fmap in Hin as ([k' v'] & Hk' & Hin). cbn in Hk'. subst k'.
  apply list_elem_of_omap in Hin as ([key' val'] & Hin & Hu).
  apply under_Some in Hk as [= -> ->]. apply under_Some in Hu as [= -> ->].
  apply list_elem_of_fmap. eexists (_, _). split; [|exact Hin]. done.
Qed.

Lemma phase_key_inj ph ph' k k' :
  phase_key (phase_name ph) k = phase_key (phase_name ph') k' → ph = ph' ∧ k = k'.
Proof. destruct ph, ph'; cbn; intros [= ?]; done. Qed.

Lemma insert_by_index_perm x l : insert_by_index x l ≡ₚ x :: l.
Proof.
  induction l as [|y l IH]; cbn [insert_by_index]; [done|].
  destruct (x.1 <? y.1); [done|]. rewrite IH. apply Permutation_swap.
Qed.

Lemma insert_by_index_sorted x l :
  StronglySorted by_index l → x.1 ∉ l.*1 →
  StronglySorted by_index (insert_by_index x l).
Proof.
  induction l as [|y l IH]; cbn [insert_by_index]; intros Hs Hx.
  { repeat constructor. }
  apply StronglySorted_inv in Hs as [Hs Hy].
  rewrite fmap_cons in Hx. apply not_elem_of_cons in Hx as [Hxy Hx].
  destruct (Z.ltb_spec x.1 y.1) as [Hlt|Hge].
  - constructor; [by constructor|]. constructor; [done|].
    eapply Forall_impl; [exact Hy|]. unfold by_index. intros z ?; cbn in *. lia.
  - constructor; [by apply IH|].
    rewrite insert_by_index_perm. constructor; [|done]. unfold by_index. lia.
Qed.

Lemma group_spec es ty :
  NoDup es.*1 →
  match group es !! ty with
  | None => ∀ i a, (Task ty i, a) ∉ es
  | Some il =>
      il ≠ [] ∧ StronglySorted by_index il
      ∧ ∀ i a, (i, a) ∈ il ↔ (Task ty i, a) ∈ es
  end.
Proof.
  induction es as [|[[ty0 i0] a0] es IH]; intros Hnd.
  { cbn. rewrite lookup_empty. intros i a Hin. by apply elem_of_nil in Hin. }
  rewrite fmap_cons in Hnd. apply NoDup_cons in Hnd as [Hfresh Hnd].
  specialize (IH Hnd). cbn [group foldr]. fold (group es).
  unfold add_entry. cbn [fst snd task_type task_index].
  destruct (decide (ty0 = ty)) as [->|Hne].
  - rewrite lookup_insert_eq.
    assert (∀ i a, (Task ty i, a) ∈ (Task ty i0, a0) :: es
                   ↔ (i, a) = (i0, a0) ∨ (Task ty i, a) ∈ es) as Hcons.
    { intros i a. rewrite elem_of_cons. split; intros [H|H]; auto.
      - left. by simplify_eq.
      - left. by simplify_eq. }
    destruct (group es !! ty) as [il|]; cbn [default from_option insert_by_index]; unfold id.
    + destruct IH as (Hnil & Hs & Hmem). split_and!.
      * intros Hil. pose proof (insert_by_index_perm (i0, a0) il) as Hp.
        rewrite Hil in Hp. by apply Permutation_nil_cons in Hp.
      * apply insert_by_index_sorted; [done|]. cbn.
        intros ([i a] & Hi & Hin)%list_elem_of_fmap. cbn in Hi. subst i.
        apply Hmem in Hin. apply Hfresh.
        apply list_elem_of_fmap. by exists (Task ty i0, a).
      * intros i a. rewrite insert_by_index_perm, elem_of_cons, Hcons, Hmem. done.
    + split_and!; [done|repeat constructor|].
      intros i a. rewrite list_elem_of_singleton, Hcons. split; [auto|].
      intros [?|Hin]; [done|]. by apply IH in Hin.
  - rewrite lookup_insert_ne by done.
    assert (∀ i a, (Task ty i, a) ∈ (Task ty0 i0, a0) :: es ↔ (Task ty i, a) ∈ es) as Hcons.
    { intros i a. rewrite elem_of_cons. split; [|auto]. intros [?|?]; [|done]. by simplify_eq. }
    destruct (group es !! ty) as [il|].
    + destruct IH as (Hnil & Hs & Hmem). split_and!; [done..|].
      intros i a. by rewrite Hcons.
    + intros i a. by rewrite Hcons.
Qed.

Lemma group_addresses es :
  concat ((λ kv : string * list (Z * string), kv.2.*2) <$> map_to_list (group es)) ≡ₚ es.*2.
Proof.
  induction es as [|[[ty0 i0] a0] es IH]; [done|].
  cbn [group foldr]. fold (group es). unfold add_entry. cbn [fst snd task_type task_index].
  rewrite fmap_cons. cbn [snd]. rewrite <-IH. clear IH.
  destruct (group es !! ty0) as [il|] eqn:Hty;
    cbn [default from_option insert_by_index]; unfold id.
  - rewrite <-(insert_delete_eq (group es)).
    rewrite map_to_list_insert by apply lookup_delete_eq.
    rewrite <-(map_to_list_delete (group es) ty0 il Hty).
    rewrite !fmap_cons. cbn [concat snd]. rewrite insert_by_index_perm. done.
  - rewrite map_to_list_insert by done. done.
Qed.

Lemma cluster_spec_addresses es : addresses (cluster_spec es) ≡ₚ es.*2.
Proof.
  unfold addresses, cluster_spec. rewrite map_to_list_fmap, <-group_addresses.
  rewrite <-list_fmap_compose. done.
Qed.

Lemma cluster_spec_Permutation es es' :
  NoDup es.*1 → es ≡ₚ es' → cluster_spec es = cluster_spec es'.
Proof.
  intros Hnd Hp. assert (NoDup es'.*1) as Hnd' by by rewrite <-Hp.
  unfold cluster_spec. f_equal. apply map_eq. intros ty.
  pose proof (group_spec es ty Hnd) as H. pose proof (group_spec es' ty Hnd') as H'.
  destruct (group es !! ty) as [il|], (group es' !! ty) as [il'|].
  - destruct H as (_ & Hs & Hmem), H' as (_ & Hs' & Hmem'). f_equal.
    assert (∀ l, StronglySorted by_index l → NoDup l) as Hsnd.
    { intros l Hl. induction Hl as [|x l Hl IH Hx]; constructor; [|done].
      intros Hin. rewrite Forall_forall in Hx. specialize (Hx _ Hin).
      unfold by_index in Hx. lia. }
    apply (StronglySorted_unique_strong by_index); [|done|done|].
    + unfold by_index. intros; lia.
    + apply NoDup_Permutation; [by apply Hsnd..|].
      intros [i a]. by rewrite Hmem, Hmem', Hp.
  - destruct H as (Hnil & _ & Hmem). destruct il as [|[i a] il]; [done|].
    exfalso. apply (H' i a). rewrite <-Hp. apply Hmem. by left.
  - destruct H' as (Hnil & _ & Hmem). destruct il' as [|[i a] il']; [done|].
    exfalso. apply (H i a). rewrite Hp. apply Hmem. by left.
  - done.
Qed.

(** The [wait] of one process returns exactly when, after its own write and
    those of its peers, a query finds the phase complete. *)
Lemma wait_Returns b key payload peers σ spec σ' :
  wait b key payload (Reachable peers) σ = (Returns spec, σ') ↔
  σ' = arrive (publish b key payload σ) peers ∧ poll b σ' = Some spec.
Proof.
  unfold wait. destruct (poll b (arrive _ peers)) as [spec'|] eqn:Hpoll.
  - split; [by intros [= <- <-]|]. intros [-> Hs]. rewrite Hpoll in Hs. by simplify_eq.
  - split; [done|]. intros [-> Hs]. by rewrite Hpoll in Hs.
Qed.

Lemma exec_app sys evs1 evs2 st :
  exec sys (evs1 ++ evs2) st = exec sys evs1 st ≫= exec sys evs2.
Proof.
  revert st. induction evs1 as [|ev evs1 IH]; intros st; cbn; [done|].
  destruct (step sys st ev); cbn; [apply IH|done].
Qed.

Lemma step_past sys st ev st' : step sys st ev = Some st' → past st' = past st ++ [ev].
Proof.
  destruct ev as [i ph|i ph r]; cbn.
  - destruct (parts sys !! i); cbn; [|done]. by intros [= <-].
  - case_decide; [|done]. by intros [= <-].
Qed.

Lemma exec_past sys evs st st' : exec sys evs st = Some st' → past st' = past st ++ evs.
Proof.
  revert st. induction evs as [|ev evs IH]; intros st; cbn.
  { intros [= <-]. by rewrite app_nil_r. }
  destruct (step sys st ev) as [st1|] eqn:Hstep; cbn; [|done].
  intros Hrest. rewrite (IH _ Hrest), (step_past _ _ _ _ Hstep), <-app_assoc. done.
Qed.

Lemma start_accounted sys : accounted sys start.
Proof.
  split.
  - intros key v Hk. cbn in Hk. by rewrite lookup_empty in Hk.
  - intros i ph p Hin. cbn in Hin. by apply elem_of_nil in Hin.
Qed.

Lemma step_accounted sys st ev st' :
  accounted sys st → step sys st ev = Some st' → accounted sys st'.
Proof.
  intros [Hkv Hcalled]. destruct ev as [i ph|i ph r]; cbn.
  - destruct (parts sys !! i) as [p|] eqn:Hp; cbn; [|done]. intros [= <-].
    unfold accounted, publish. cbn [stage barrier_of kv past].
    change (phase_key (phase_name ph) (serialize (ident p))) with (key_of ph p).
    split.
    + intros key v. rewrite lookup_insert. case_decide as Hkey.
      * intros [= <-]. exists i, ph, p. split_and!; [|done..].
        apply elem_of_app. right. by left.
      * intros (j & ph' & q & Hin & ? & ? & ?)%Hkv. exists j, ph', q.
        split_and!; [|done..]. apply elem_of_app. by left.
    + intros j ph' q [Hin|Hin]%elem_of_app Hq.
      * rewrite lookup_insert. case_decide; [done|]. by apply (Hcalled j).
      * apply list_elem_of_singleton in Hin. simplify_eq. by rewrite lookup_insert_eq.
  - case_decide; [|done]. intros [= <-]. unfold accounted. cbn [kv past]. split.
    + intros key v (j & ph' & q & Hin & ? & ? & ?)%Hkv. exists j, ph', q.
      split_and!; [|done..]. apply elem_of_app. by left.
    + intros j ph' q [Hin|Hin]%elem_of_app Hq; [by apply (Hcalled j)|].
      by apply list_elem_of_singleton in Hin.
Qed.

Lemma exec_accounted sys evs st st' :
  accounted sys st → exec sys evs st = Some st' → accounted sys st'.
Proof.
  revert st. induction evs as [|ev evs IH]; intros st Hacc; cbn.
  { by intros [= <-]. }
  destruct (step sys st ev) as [st1|] eqn:Hstep; cbn; [|done].
  apply IH. by eapply step_accounted.
Qed.

Lemma length_omap_le {A B} (f : A → option B) l : (length (omap f l) ≤ length l)%nat.
Proof.
  induction l as [|x l IH]; cbn; [done|]. destruct (f x); cbn; lia.
Qed.

Lemma filter_full {A} (P : A → Prop) `{∀ x, Decision (P x)} (l : list A) :
  (length l ≤ length (filter P l))%nat → Forall P l.
Proof.
  intros Hlen. apply Forall_forall. intros x Hx.
  destruct (decide (P x)) as [|Hn]; [done|].
  pose proof (length_filter_lt P l x Hx Hn). lia.
Qed.

(** A phase that counts as many keys as there are participants has been
    entered by all of them. *)
Lemma count_all_called sys st ph :
  accounted sys st →
  count_published (phase_name ph) (kv st) = length (parts sys) →
  ∀ j, (j < length (parts sys))%nat → Call j ph ∈ past st.
Proof.
  intros [Hkv _] Hcount.
  set (N := length (parts sys)) in *.
  set (C := filter (λ j, Call j ph ∈ past st) (seq 0 N)).
  set (img := omap (λ j, (λ p, serialize (ident p)) <$> parts sys !! j) C).
  assert ((published (phase_name ph) (kv st)).*1 ⊆+ img) as Hsub.
  { apply NoDup_submseteq; [apply published_NoDup|].
    intros k ([k' v] & -> & Hin)%list_elem_of_fmap. cbn.
    apply published_spec in Hin.
    destruct (Hkv _ _ Hin) as (i & ph' & p & Hcall & Hp & Hkey & _).
    apply phase_key_inj in Hkey as [<- ->].
    apply list_elem_of_omap. exists i. split; [|by rewrite Hp].
    apply list_elem_of_filter. split; [done|].
    apply elem_of_seq. apply lookup_lt_Some in Hp. unfold N. lia. }
  apply submseteq_length in Hsub. rewrite length_fmap in Hsub.
  unfold count_published in Hcount. rewrite Hcount in Hsub.
  pose proof (length_omap_le (λ j, (λ p, serialize (ident p)) <$> parts sys !! j) C).
  assert (Forall (λ j, Call j ph ∈ past st) (seq 0 N)) as Hall.
  { apply (filter_full (λ j, Call j ph ∈ past st)).
    rewrite length_seq. fold C. unfold img in Hsub. lia. }
  intros j Hj. rewrite Forall_forall in Hall. apply Hall, elem_of_seq. lia.
Qed.

Lemma exec_split sys pre ev post st :
  exec sys (pre ++ ev :: post) start = Some st →
  ∃ st0 st1, exec sys pre start = Some st0 ∧ past st0 = pre ∧ accounted sys st0
             ∧ step sys st0 ev = Some st1.
Proof.
  rewrite exec_app. destruct (exec sys pre start) as [st0|] eqn:Hpre; cbn; [|done].
  destruct (step sys st0 ev) as [st1|] eqn:Hstep; cbn; [|done]. intros _.
  exists st0, st1. split_and!; [done| |by eapply exec_accounted, Hpre; apply start_accounted|done].
  by rewrite (exec_past _ _ _ _ Hpre).
Qed.

Lemma step_Return sys st i ph r st' :
  step sys st (Return i ph r) = Some st' →
  Call i ph ∈ past st ∧ poll (barrier_of sys ph) (kv st) = Some r
  ∧ count_published (phase_name ph) (kv st) = expected (barrier_of sys ph).
Proof.
  cbn. case_decide as Hok; [|done]. intros _. destruct Hok as [Hcall Hpoll].
  split_and!; [done..|]. unfold poll in Hpoll. by case_decide.
Qed.

(** C2.  Whenever a call of [wait] returns, in either phase, the number of
    distinct keys published under the phase so far is the expected count,
    and these keys are the keys of the participants that have called; when
    the expected count is the number of participants, every one of them has
    called before: in particular the stop wait returns to nobody until all
    have called it. *)
Theorem wait_returns_after_all_published sys pre i ph r post st :
  exec sys (pre ++ Return i ph r :: post) start = Some st →
  ∃ st0, exec sys pre start = Some st0
    ∧ count_published (phase_name ph) (kv st0) = expected (barrier_of sys ph)
    ∧ (∀ k, k ∈ (published (phase_name ph) (kv st0)).*1
            ↔ ∃ j p, Call j ph ∈ pre ∧ parts sys !! j = Some p ∧ k = serialize (ident p))
    ∧ (expected (barrier_of sys ph) = length (parts sys) →
       ∀ j, (j < length (parts sys))%nat → Call j ph ∈ pre).
Proof.
  intros (st0 & st1 & Hpre & Hpast & Hacc & Hstep)%exec_split.
  apply step_Return in Hstep as (_ & _ & Hcount).
  exists st0. split_and!; [done..| |].
  - intros k. split.
    + intros ([k' v] & -> & Hin)%list_elem_of_fmap. cbn.
      apply published_spec in Hin.
      destruct (proj1 Hacc _ _ Hin) as (j & ph' & p & Hcall & Hp & Hkey & _).
      apply phase_key_inj in Hkey as [<- ->]. exists j, p. by rewrite <-Hpast.
    + intros (j & p & Hcall & Hp & ->). rewrite <-Hpast in Hcall.
      destruct (proj2 Hacc _ _ _ Hcall Hp) as [v Hv].
      apply list_elem_of_fmap. exists (serialize (ident p), v). split; [done|].
      by apply published_spec.
  - intros Hexp j Hj. rewrite <-Hpast. apply (count_all_called sys); [done| |done].
    by rewrite Hcount.
Qed.

Lemma accounted_value sys st i ph p :
  accounted sys st → NoDup (ident <$> parts sys) →
  Call i ph ∈ past st → parts sys !! i = Some p →
  kv st !! key_of ph p = Some (payload ph p).
Proof.
  intros [Hkv Hcalled] Hnd Hcall Hp.
  destruct (Hcalled _ _ _ Hcall Hp) as [v Hv]. rewrite Hv. f_equal.
  destruct (Hkv _ _ Hv) as (j & ph' & q & _ & Hq & Hkey & ->).
  apply phase_key_inj in Hkey as [<- Hid%(inj serialize)].
  assert (i = j) as <-.
  { eapply NoDup_lookup; [exact Hnd|..]; rewrite list_lookup_fmap.
    - by rewrite Hp.
    - rewrite Hq. cbn. by rewrite Hid. }
  by simplify_eq.
Qed.

Lemma complete_published sys st ph :
  accounted sys st → NoDup (ident <$> parts sys) →
  (∀ j, (j < length (parts sys))%nat → Call j ph ∈ past st) →
  published (phase_name ph) (kv st)
  ≡ₚ (λ p, (serialize (ident p), payload ph p)) <$> parts sys.
Proof.
  intros Hacc Hnd Hall. apply NoDup_Permutation.
  - eapply NoDup_fmap_1, published_NoDup.
  - apply (NoDup_fmap_1 fst). rewrite <-list_fmap_compose.
    rewrite (list_fmap_compose ident serialize). by apply (NoDup_fmap_2 serialize).
  - intros [k v]. rewrite published_spec, list_elem_of_fmap. split.
    + intros Hin. destruct (proj1 Hacc _ _ Hin) as (j & ph' & p & _ & Hp & Hkey & ->).
      apply phase_key_inj in Hkey as [<- ->]. exists p. split; [done|].
      by eapply list_elem_of_lookup_2.
    + intros (p & [= -> ->] & [j Hp]%list_elem_of_lookup_1).
      apply (accounted_value sys st j); [done..| |done].
      apply Hall. by eapply lookup_lt_Some.
Qed.

Lemma omap_parse_topology ps :
  omap parse_entry ((λ p, (serialize (ident p), address p)) <$> ps) = topology ps.
Proof.
  induction ps as [|p ps IH]; [done|].
  rewrite fmap_cons. cbn [omap list_omap]. rewrite IH.
  unfold parse_entry. cbn [fst snd]. rewrite deserialize_serialize. done.
Qed.

Lemma complete_poll sys st :
  accounted sys st → NoDup (ident <$> parts sys) →
  (workers sys + servers sys = length (parts sys))%nat →
  (∀ j, (j < length (parts sys))%nat → Call j Init ∈ past st) →
  poll (barrier_of sys Init) (kv st) = Some (cluster_spec (topology (parts sys))).
Proof.
  intros Hacc Hnd Hexp Hall.
  pose proof (complete_published sys st Init Hacc Hnd Hall) as Hpub.
  unfold poll, count_published, entries. cbn [stage barrier_of expected num_workers num_ps].
  pose proof (Permutation_length Hpub) as Hlen. rewrite length_fmap in Hlen.
  rewrite decide_True by (by rewrite Hlen). f_equal.
  symmetry. apply cluster_spec_Permutation.
  - unfold topology. by rewrite <-list_fmap_compose.
  - rewrite Hpub. by rewrite omap_parse_topology.
Qed.

Lemma exec_calls sys ph order st :
  (∀ i, i ∈ order → (i < length (parts sys))%nat) →
  is_Some (exec sys ((λ i, Call i ph) <$> order) st).
Proof.
  revert st. induction order as [|i order IH]; intros st Hlt; cbn; [done|].
  destruct (lookup_lt_is_Some_2 (parts sys) i) as [p ->]; [apply Hlt; by left|].
  cbn. apply IH. intros j Hj. apply Hlt. by right.
Qed.

Lemma exec_returns sys ph spec order st :
  poll (barrier_of sys ph) (kv st) = Some spec →
  (∀ i, i ∈ order → Call i ph ∈ past st) →
  is_Some (exec sys ((λ i, Return i ph spec) <$> order) st).
Proof.
  revert st. induction order as [|i order IH]; intros st Hpoll Hcalled; cbn; [done|].
  rewrite decide_True by (split; [apply Hcalled; by left|done]).
  cbn. apply IH; cbn; [done|].
  intros j Hj. apply elem_of_app. left. apply Hcalled. by right.
Qed.

(** C1 (amended).  When the task identities of the participants are
    pairwise distinct and the expected count is their number, there is one
    cluster spec such that: whatever the order in which the participants
    publish and whatever the order in which their waits end, every call
    returns it; no wait ever returns anything else; its addresses are
    exactly the published ones; and under each task type it lists the
    addresses of that type in the order of the task indices. *)
Theorem init_wait_same_spec sys :
  NoDup (ident <$> parts sys) →
  (workers sys + servers sys = length (parts sys))%nat →
  Literal.init_claim sys.
Proof.
  intros Hnd Hexp. exists (cluster_spec (topology (parts sys))). split_and!.
  - intros arrival leave Harr Hleave. rewrite exec_app.
    destruct (exec_calls sys Init arrival start) as [st Hst].
    { intros i Hi. rewrite Harr in Hi. apply elem_of_seq in Hi. lia. }
    rewrite Hst. cbn.
    assert (∀ j, (j < length (parts sys))%nat → Call j Init ∈ past st) as Hall.
    { intros j Hj. rewrite (exec_past _ _ _ _ Hst). cbn.
      apply list_elem_of_fmap. exists j. split; [done|].
      rewrite Harr. apply elem_of_seq. lia. }
    apply exec_returns.
    + apply complete_poll; [|done..].
      eapply exec_accounted, Hst. apply start_accounted.
    + intros i Hi. apply Hall. rewrite Hleave in Hi. apply elem_of_seq in Hi. lia.
  - intros evs st i r Hexec (pre & post & ->)%list_elem_of_split.
    apply exec_split in Hexec as (st0 & st1 & _ & _ & Hacc & Hstep).
    apply step_Return in Hstep as (_ & Hpoll & Hcount).
    rewrite complete_poll in Hpoll; [by injection Hpoll|done..|].
    apply (count_all_called sys); [done|]. rewrite Hcount. exact Hexp.
  - rewrite cluster_spec_addresses. unfold topology. by rewrite <-list_fmap_compose.
  - intros ty. unfold cluster_spec. rewrite lookup_fmap.
    pose proof (group_spec (topology (parts sys)) ty) as Hg.
    assert (∀ i a, (Task ty i, a) ∈ topology (parts sys)
                   ↔ Participant (Task ty i) a ∈ parts sys) as Htop.
    { intros i a. unfold topology. rewrite list_elem_of_fmap. split.
      - intros ([t b] & [= -> ->] & Hin). done.
      - intros Hin. by exists (Participant (Task ty i) a). }
    destruct (group _ !! ty) as [il|].
    + destruct Hg as (Hnil & Hs & Hmem).
      { unfold topology. by rewrite <-list_fmap_compose. }
      exists il. split_and!; [done| |by rewrite decide_False].
      intros i a. by rewrite Hmem, Htop.
    + exists []. split_and!; [constructor| |done].
      intros i a. rewrite <-Htop. split; [by intros ?%elem_of_nil|].
      intros Hin. exfalso. revert Hin. apply Hg.
      unfold topology. by rewrite <-list_fmap_compose.
Qed.

Lemma init_wait_same_spec_witness : Literal.init_claim Scenario.trio.
Proof.
  apply init_wait_same_spec.
  - apply (bool_decide_unpack _). vm_compute. exact I.
  - reflexivity.
Defined.

(** Two participants that publish different addresses under the same task
    identity are two distinct tuples, but they share one key: the phase
    never counts two keys and no call returns. *)
Lemma init_claim_fails_for_twins :
  NoDup (parts Scenario.twins)
  ∧ (workers Scenario.twins + servers Scenario.twins = length (parts Scenario.twins))%nat
  ∧ ¬ Literal.init_claim Scenario.twins.
Proof.
  split_and!.
  - apply (bool_decide_unpack _). vm_compute. exact I.
  - reflexivity.
  - intros (spec & Hlive & _).
    destruct (Hlive [0; 1]%nat [0; 1]%nat) as [st Hst]; [done..|].
    cbn [fmap list_fmap app] in Hst.
    apply (exec_split _ [Call 0 Init; Call 1 Init]) in Hst
      as (st0 & st1 & Hpre & _ & _ & Hstep).
    apply step_Return in Hstep as (_ & _ & Hcount).
    vm_compute in Hpre. injection Hpre as <-.
    vm_compute in Hcount. discriminate.
Qed.

Lemma wait_returns_after_all_published_witness :
  ∃ st0, exec Scenario.trio [Call 0 Stop; Call 1 Stop; Call 2 Stop] start = Some st0
    ∧ count_published "stop" (kv st0) = 3%nat
    ∧ ∀ j, (j < 3)%nat → Call j Stop ∈ [Call 0 Stop; Call 1 Stop; Call 2 Stop].
Proof.
  destruct (exec Scenario.trio
              ([Call 0 Stop; Call 1 Stop; Call 2 Stop]
               ++ Return 0 Stop (cluster_spec (topology
                    [Participant (Task "worker" 1) EmptyString;
                     Participant (Task "ps" 0) EmptyString;
                     Participant (Task "worker" 0) EmptyString])) :: [])
              start) as [st|] eqn:Hrun.
  - destruct (wait_returns_after_all_published _ _ _ _ _ _ _ Hrun)
      as (st0 & Hpre & Hcount & _ & Hall).
    exists st0. split_and!; [exact Hpre|exact Hcount|]. apply Hall. reflexivity.
  - vm_compute in Hrun. discriminate.
Defined.

End KVBarrierFacts.

(** ** The runs of [dispatch] *)

Ltac members H :=
  repeat (apply elem_of_cons in H as [H|H]; [simplify_eq|]);
  try (by apply elem_of_nil in H).

Ltac trace_shapes ty :=
  unfold DispatchTask.rendezvous, DispatchTask.launch, DispatchTask.joining,
    DispatchTask.needs_server in *;
  destruct (String.eqb ty "evaluator"); destruct (String.eqb ty "ps") eqn:?;
  cbn [negb andb app] in *.

Ltac trace_index H :=
  repeat match type of H with
         | (_ :: _) !! ?i = Some _ => destruct i as [|i]; cbn [lookup list_lookup] in H
         end; simplify_eq.

Section DispatchFacts.
Import DispatchTask.

(** [xset_environ] with the one key that [dispatch] passes. *)
Lemma xset_environ_single k v w :
  xset_environ [(k, v)] w
  = match environ w !! k with
    | Some old =>
        if String.eqb old v
        then (Returns (), World (<[k:=v]> (environ w)) (kv w) (net w) (trace w))
        else (Raises (RuntimeError (k +:+ " already set in os.environ")), w)
    | None => (Returns (), World (<[k:=v]> (environ w)) (kv w) (net w) (trace w))
    end.
Proof.
  unfold xset_environ, Environ.xset_environ. cbn [find].
  unfold Environ.collides. cbn [fst snd].
  destruct (environ w !! k) as [old|]; [|done].
  destruct (String.eqb old v); [done|]. by destruct w.
Qed.

(** Every way a run of [dispatch] can go, with the world it leaves. *)
Lemma dispatch_worlds c ty id spec w r w' :
  dispatch c ty id spec w = (r, w') →
  let cfg := json_dumps c spec ty id (if needs_server ty then "google"%string else EmptyString) in
  let env' := <["TF_CONFIG"%string := cfg]> (environ w) in
  let name := ty +:+ ":" +:+ PyStr.str id in
  let ps := String.eqb ty "ps" in
  let served := if needs_server ty then (server c ty id (net w)).2 else net w in
  (∃ old msg, environ w !! "TF_CONFIG"%string = Some old ∧ old ≠ cfg
              ∧ r = Raises (RuntimeError msg) ∧ w' = w)
  ∨ (w' = World env' (kv w) (net w) (trace w ++ [Experiment])
     ∧ ((∃ e, experiment_fn c env' = inl e ∧ r = Raises e)
        ∨ (∃ x, experiment_fn c env' = inr x
                ∧ (config_task_type x ≠ ty ∨ config_task_id x ≠ id)
                ∧ r = Raises AssertionError)))
  ∨ (∃ e, needs_server ty = true ∧ (server c ty id (net w)).1 = Some e ∧ r = Raises e
          ∧ experiment_fn c env' = inr (Exp ty id)
          ∧ w' = World env' (kv w) (server c ty id (net w)).2
                   (trace w ++ [Experiment; Server ty id]))
  ∨ (ps = false ∧ train_and_evaluate c = MonitoredThread.StillRunning ∧ r = Blocks
     ∧ experiment_fn c env' = inr (Exp ty id)
     ∧ w' = World env' (kv w) served (trace w ++ launch ty id ++ [Join]))
  ∨ (r = Returns (MonitoredThread.Thread name ps (train_and_evaluate c)
                    (if ps then MonitoredThread.Running else MonitoredThread.Joined))
     ∧ (ps = false → train_and_evaluate c ≠ MonitoredThread.StillRunning)
     ∧ experiment_fn c env' = inr (Exp ty id)
     ∧ (needs_server ty = true → (server c ty id (net w)).1 = None)
     ∧ w' = World env' (kv w) served (trace w ++ launch ty id ++ joining ty)).
Proof.
  unfold dispatch.
  change (negb (String.eqb ty "evaluator") && negb (String.eqb ty "ps")) with (needs_server ty).
  cbv zeta.
  set (cfg := json_dumps c spec ty id _).
  unfold bind at 1. rewrite xset_environ_single.
  assert (∀ r0 w0, (match environ w !! "TF_CONFIG"%string with
            | Some old => if String.eqb old cfg
                then (Returns (), World (<["TF_CONFIG"%string:=cfg]> (environ w)) (kv w) (net w) (trace w))
                else (r0, w0)
            | None => (Returns (), World (<["TF_CONFIG"%string:=cfg]> (environ w)) (kv w) (net w) (trace w))
            end) = (Returns (), World (<["TF_CONFIG"%string:=cfg]> (environ w)) (kv w) (net w) (trace w))
          ∨ ∃ old, environ w !! "TF_CONFIG"%string = Some old ∧ old ≠ cfg) as Hset.
  { intros r0 w0. destruct (environ w !! _) as [old|]; [|by left].
    destruct (String.eqb_spec old cfg); [by left|right; eauto]. }
  destruct (Hset (Raises (RuntimeError ("TF_CONFIG" +:+ " already set in os.environ")) : outcome ()) w)
    as [->|(old & Henv & Hne)].
  2:{ rewrite Henv. apply String.eqb_neq in Hne as Hb. rewrite Hb.
      intros [= <- <-]. left. eauto 10. }

  clear Hset. cbv beta iota.
  unfold bind at 1, call_experiment_fn. cbn [environ kv net trace].
  destruct (experiment_fn c _) as [e|[cty cid]] eqn:Hexp.
  { intros [= <- <-]. right. left. eauto 10. }
  unfold bind at 1, assert. cbn [config_task_type config_task_id].
  destruct (String.eqb_spec cty ty) as [->|Hty].
  2:{ intros [= <- <-]. right. left. split; [done|]. right. eexists. split_and!; [done| |done]. by left. }
  unfold ret at 1. unfold bind at 1.
  destruct (Z.eqb_spec cid id) as [->|Hid].
  2:{ intros [= <- <-]. right. left. split; [done|]. right. eexists. split_and!; [done| |done]. by right. }
  unfold ret at 1. unfold launch, joining. unfold bind at 1.
  destruct (needs_server ty) eqn:Hsrv.
  - unfold start_server. cbn [environ kv net trace].
    destruct (server c ty id (net w)) as [[e|] m1] eqn:Hserver.
    { intros [= <- <-]. do 2 right. left. exists e. cbn. by rewrite <-app_assoc. }
    unfold bind at 1, thread_start, bind at 1, emit, ret at 1.
    cbn [environ kv net trace MonitoredThread.name MonitoredThread.daemon].
    assert (String.eqb ty "ps" = false) as Hps.
    { unfold needs_server in Hsrv. apply andb_true_iff in Hsrv as [_ H]. by apply negb_true_iff. }
    rewrite Hps. cbn [negb].
    unfold bind at 1, thread_join, MonitoredThread.join, MonitoredThread.start.
    cbn [environ kv net trace MonitoredThread.target MonitoredThread.name MonitoredThread.daemon].
    destruct (train_and_evaluate c) eqn:Hb; intros [= <- <-]; cbn; rewrite <-!app_assoc;
      do 3 right; [right|right|left]; split_and!; done.
  - unfold ret at 1. unfold bind at 1, thread_start, bind at 1, emit, ret at 1.
    cbn [environ kv net trace MonitoredThread.name MonitoredThread.daemon].
    destruct (String.eqb ty "ps") eqn:Hps; cbn [negb].
    + unfold ret, bind. intros [= <- <-]. cbn; rewrite <-!app_assoc.
      do 4 right. split_and!; done.
    + unfold bind at 1, thread_join, MonitoredThread.join, MonitoredThread.start.
      cbn [environ kv net trace MonitoredThread.target MonitoredThread.name MonitoredThread.daemon].
      destruct (train_and_evaluate c) eqn:Hb; intros [= <- <-]; cbn; rewrite <-!app_assoc;
        do 3 right; [right|right|left]; split_and!; done.
Qed.

Lemma dispatch_env_cases c ty id spec w r w' :
  dispatch c ty id spec w = (r, w') →
  w' = w
  ∨ environ w' = <["TF_CONFIG"%string :=
         json_dumps c spec ty id (if needs_server ty then "google"%string else EmptyString)]>
       (environ w)
    ∧ kv w' = kv w
    ∧ (net w' = net w
       ∨ needs_server ty = true ∧ net w' = (server c ty id (net w)).2
         ∧ Server ty id ∈ trace w').
Proof.
  intros H%dispatch_worlds. cbv zeta in H.
  destruct H as [(old & msg & _ & _ & _ & ->)|[[-> _]|[(e & Hsrv & _ & _ & _ & ->)
    |[(_ & _ & _ & _ & ->)|(_ & _ & _ & _ & ->)]]]]; auto;
    right; (split_and!; [done..|]); cbn [net trace]; unfold launch;
    destruct (needs_server ty); auto; right; (split_and!; [done..|]); set_solver.
Qed.

(** X1.  [dispatch] never touches the store, changes no variable of the
    environment other than [TF_CONFIG], and changes the machine only
    through the TensorFlow server it starts: for the types ["evaluator"]
    and ["ps"], and in every run that does not come to start the server,
    the machine is as before; otherwise it is as the server left it. *)
Theorem dispatch_frame c ty id spec w r w' :
  dispatch c ty id spec w = (r, w') →
  kv w' = kv w
  ∧ (∀ k, k ≠ "TF_CONFIG"%string → environ w' !! k = environ w !! k)
  ∧ (net w' = net w
     ∨ Server ty id ∈ trace w' ∧ net w' = (server c ty id (net w)).2)
  ∧ (ty = "evaluator"%string ∨ ty = "ps"%string → net w' = net w).
Proof.
  intros [->|(Henv & Hkv & Hnet)]%dispatch_env_cases; [by auto|].
  split_and!; [done| | |].
  - intros k Hk. by rewrite Henv, lookup_insert_ne.
  - destruct Hnet as [?|(_ & ? & ?)]; auto.
  - intros Hty. destruct Hnet as [?|(Hsrv & _)]; [done|].
    unfold needs_server in Hsrv. by destruct Hty as [-> | ->].
Qed.

Lemma dispatch_frame_witness :
  environ (dispatch (Scenario.crew "worker" 0 "ps_0" MonitoredThread.Finishes) "worker" 0 ∅
             (Scenario.container "worker_0")).2 !! "SKEIN_CONTAINER_ID"%string
  = Some "worker_0"%string
  ∧ net (dispatch (Scenario.crew "ps" 0 "worker_0" MonitoredThread.StillRunning) "ps" 0 ∅
           (Scenario.container "ps_0")).2 = Scenario.node.
Proof.
  split.
  - destruct (dispatch_frame
                (Scenario.crew "worker" 0 "ps_0" MonitoredThread.Finishes) "worker" 0 ∅
                (Scenario.container "worker_0") _ _ (surjective_pairing _))
      as (_ & Hother & _).
    rewrite Hother; [reflexivity|discriminate].
  - destruct (dispatch_frame
                (Scenario.crew "ps" 0 "worker_0" MonitoredThread.StillRunning) "ps" 0 ∅
                (Scenario.container "ps_0") _ _ (surjective_pairing _))
      as (_ & _ & _ & Hnet).
    apply Hnet. right. reflexivity.
Defined.

Lemma needs_server_true ty :
  needs_server ty = true ↔ ty ≠ "evaluator"%string ∧ ty ≠ "ps"%string.
Proof. unfold needs_server. by rewrite andb_true_iff, !negb_true_iff, !String.eqb_neq. Qed.

(** X2.  [dispatch] starts a TensorFlow server only for a type other than
    ["evaluator"] and ["ps"], and then for the task's own type and index.
    The thread it starts is named [<type>:<index>] and is a daemon exactly
    for the type ["ps"]; for a type that gets a server, the server is
    started before the thread. *)
Theorem dispatch_server_and_thread_identity c ty id spec w r w' :
  dispatch c ty id spec w = (r, w') →
  ∃ tr, trace w' = trace w ++ tr
    ∧ (∀ job index, Server job index ∈ tr →
         ty ≠ "evaluator"%string ∧ ty ≠ "ps"%string ∧ job = ty ∧ index = id)
    ∧ (∀ name daemon, Start name daemon ∈ tr →
         name = ty +:+ ":" +:+ PyStr.str id
         ∧ (daemon = true ↔ ty = "ps"%string)
         ∧ (ty ≠ "evaluator"%string → ty ≠ "ps"%string →
            ∃ i j, (i < j)%nat ∧ tr !! i = Some (Server ty id)
                   ∧ tr !! j = Some (Start name daemon))).
Proof.
  intros H%dispatch_worlds. cbv zeta in H.
  pose proof (needs_server_true ty) as Hsrv.
  pose proof (String.eqb_spec ty "ps") as Hps.
  destruct H as [(old & msg & _ & _ & _ & ->)|[[-> _]|[(e & Hs & _ & _ & _ & ->)
    |[(_ & _ & _ & _ & ->)|(_ & _ & _ & _ & ->)]]]]; cbn [trace].
  { exists []. rewrite app_nil_r.
    split_and!; [done|..]; intros ?? Hin; by apply elem_of_nil in Hin. }
  all: (eexists; split; [reflexivity|]);
    unfold launch, joining in *;
    destruct (needs_server ty); destruct Hps as [Hps|Hps];
    try (by destruct (proj1 Hsrv eq_refl));
    (split; intros ?? Hin; cbn in Hin; members Hin);
    try (destruct (proj1 Hsrv eq_refl); done).
  all: split_and!; [done|naive_solver|].
  all: intros ??; try (exists 1%nat, 2%nat; split_and!; [lia|done..]).
  all: naive_solver.
Qed.

Lemma dispatch_server_and_thread_identity_witness :
  ∃ tr, trace (dispatch (Scenario.crew "worker" 0 "ps_0" MonitoredThread.Finishes) "worker" 0 ∅
                 (Scenario.container "worker_0")).2 = [] ++ tr
        ∧ ∃ i j, (i < j)%nat ∧ tr !! i = Some (Server "worker" 0)
                 ∧ tr !! j = Some (Start "worker:0" false).
Proof.
  destruct (dispatch_server_and_thread_identity
              (Scenario.crew "worker" 0 "ps_0" MonitoredThread.Finishes) "worker" 0 ∅
              (Scenario.container "worker_0") _ _ (surjective_pairing _))
    as (tr & Htr & _ & Hstart).
  exists tr. split; [exact Htr|].
  destruct (Hstart "worker:0"%string false) as (_ & _ & Hord).
  - vm_compute in Htr. rewrite <-Htr.
    apply list_elem_of_In. do 2 right. left. reflexivity.
  - apply Hord; discriminate.
Defined.

(** X3.  The experiment function runs with [TF_CONFIG] already set.  When
    it fails, [dispatch] fails with its error; when the configuration it
    returns names another task type or index, [dispatch] fails with an
    [AssertionError].  In both cases neither a server nor a thread has been
    started. *)
Theorem dispatch_checks_experiment c ty id spec w :
  environ w !! "TF_CONFIG"%string = None →
  let env' := <["TF_CONFIG"%string :=
                json_dumps c spec ty id
                  (if negb (String.eqb ty "evaluator") && negb (String.eqb ty "ps")
                   then "google"%string else EmptyString)]> (environ w) in
  let w' := World env' (kv w) (net w) (trace w ++ [Experiment]) in
  (∀ e, experiment_fn c env' = inl e → dispatch c ty id spec w = (Raises e, w'))
  ∧ (∀ x, experiment_fn c env' = inr x →
       config_task_type x ≠ ty ∨ config_task_id x ≠ id →
       dispatch c ty id spec w = (Raises AssertionError, w')).
Proof.
  intros Hunset env' w'. subst env' w'.
  change (negb (String.eqb ty "evaluator") && negb (String.eqb ty "ps")) with (needs_server ty).
  destruct (dispatch c ty id spec w) as [r w1] eqn:Hrun.
  apply dispatch_worlds in Hrun. cbv zeta in Hrun.
  destruct Hrun as [(old & msg & Hold & _)|[[-> Hexp]|[(e & _ & _ & _ & Hexp & _)
    |[(_ & _ & _ & Hexp & _)|(_ & _ & Hexp & _)]]]].
  - by rewrite Hunset in Hold.
  - destruct Hexp as [(e & He & ->)|(x & Hx & Hne & ->)]; split.
    + intros e' He'. rewrite He in He'. by simplify_eq.
    + intros x Hx. by rewrite He in Hx.
    + intros e He. by rewrite Hx in He.
    + done.
  - split; [intros e' He'; by rewrite Hexp in He'|].
    intros x Hx [?|?]; rewrite Hexp in Hx; by simplify_eq.
  - split; [intros e' He'; by rewrite Hexp in He'|].
    intros x Hx [?|?]; rewrite Hexp in Hx; by simplify_eq.
  - split; [intros e' He'; by rewrite Hexp in He'|].
    intros x Hx [?|?]; rewrite Hexp in Hx; by simplify_eq.
Qed.

Lemma dispatch_checks_experiment_witness :
  (dispatch (Scenario.crew "worker" 1 "ps_0" MonitoredThread.Finishes) "worker" 0 ∅
     (Scenario.container "worker_0")).1 = Raises AssertionError.
Proof.
  destruct (dispatch_checks_experiment
              (Scenario.crew "worker" 1 "ps_0" MonitoredThread.Finishes) "worker" 0 ∅
              (Scenario.container "worker_0")) as [_ Hmis]; [reflexivity|].
  rewrite (Hmis (Exp "worker" 1)); [reflexivity|reflexivity|right; discriminate].
Defined.

(** X4.  The thread that [dispatch] returns has been started, carries the
    failure of the unit of work if there is one, and, unless the type is
    ["ps"], has been joined: the unit of work is over.  [dispatch] blocks
    only in that join, on a unit that does not end. *)
Theorem dispatch_returns_started_thread c ty id spec w r w' :
  dispatch c ty id spec w = (r, w') →
  (∀ t, r = Returns t →
     MonitoredThread.name t = ty +:+ ":" +:+ PyStr.str id
     ∧ MonitoredThread.daemon t = String.eqb ty "ps"
     ∧ MonitoredThread.state t ≠ MonitoredThread.Created
     ∧ MonitoredThread.exception t
       = match train_and_evaluate c with
         | MonitoredThread.Fails e => Some e
         | _ => None
         end
     ∧ (ty ≠ "ps"%string →
        MonitoredThread.state t = MonitoredThread.Joined
        ∧ train_and_evaluate c ≠ MonitoredThread.StillRunning
        ∧ last (trace w') = Some Join))
  ∧ (r = Blocks →
     ty ≠ "ps"%string ∧ train_and_evaluate c = MonitoredThread.StillRunning
     ∧ last (trace w') = Some Join).
Proof.
  intros H%dispatch_worlds. cbv zeta in H.
  destruct H as [(old & msg & _ & _ & -> & _)|[[_ [(e & _ & ->)|(x & _ & _ & ->)]]
    |[(e & _ & _ & -> & _)|[(Hps & Hb & -> & _ & ->)|(-> & Hrun & _ & _ & ->)]]]].
  1-4: by (split; [intros t [=]|intros [=]]).
  - split; [intros t [=]|intros _]. apply String.eqb_neq in Hps.
    split_and!; [done..|]. cbn [trace]. by rewrite !app_assoc, last_snoc.
  - split; [|intros [=]]. intros t [= <-]. cbn.
    destruct (String.eqb_spec ty "ps") as [Heq|Hne].
    + split_and!; [done..| |done]. by destruct (train_and_evaluate c).
    + specialize (Hrun eq_refl). split_and!; [done..| |].
      * by destruct (train_and_evaluate c).
      * intros _. split_and!; [done..|]. cbn [trace]. unfold joining.
        rewrite (proj2 (String.eqb_neq _ _) Hne). by rewrite app_comm_cons, !app_assoc, last_snoc.
Qed.

Lemma dispatch_returns_started_thread_witness :
  last (trace (dispatch (Scenario.crew "worker" 0 "ps_0" (MonitoredThread.Fails (Failure 7 "boom")))
                 "worker" 0 ∅ (Scenario.container "worker_0")).2) = Some Join
  ∧ MonitoredThread.exception
      (MonitoredThread.Thread "worker:0" false (MonitoredThread.Fails (Failure 7 "boom"))
         MonitoredThread.Joined)
    = Some (Failure 7 "boom").
Proof.
  destruct (dispatch_returns_started_thread
              (Scenario.crew "worker" 0 "ps_0" (MonitoredThread.Fails (Failure 7 "boom")))
              "worker" 0 ∅ (Scenario.container "worker_0") _ _ (surjective_pairing _))
    as [Hret _].
  destruct (Hret (MonitoredThread.Thread "worker:0" false
                    (MonitoredThread.Fails (Failure 7 "boom")) MonitoredThread.Joined))
    as (_ & _ & _ & Hexc & Hjoin).
  - vm_compute. reflexivity.
  - split; [|exact Hexc]. apply Hjoin. discriminate.
Defined.

End DispatchFacts.

(** ** What [main] leaves behind *)
Section MainFacts.
Import DispatchTask.

(** The store only grows while a participant waits. *)
Lemma arrive_is_Some (σ : KVBarrier.store) peers k :
  is_Some (σ !! k) → is_Some (KVBarrier.arrive σ peers !! k).
Proof.
  revert σ. induction peers as [|[k' v'] peers IH]; intros σ Hk; [done|].
  apply IH. rewrite lookup_insert. by case_decide.
Qed.

Lemma barrier_wait_store b key payload weather w r w' :
  barrier_wait b key payload weather w = (r, w') →
  (∀ k, is_Some (kv w !! k) → is_Some (kv w' !! k))
  ∧ is_Some (kv w' !! KVBarrier.phase_key (KVBarrier.stage b) key).
Proof.
  assert (∀ k, is_Some (kv w !! k) →
               is_Some (KVBarrier.publish b key payload (kv w) !! k)) as Hpub.
  { intros k Hk. unfold KVBarrier.publish. rewrite lookup_insert. by case_decide. }
  assert (is_Some (KVBarrier.publish b key payload (kv w)
                   !! KVBarrier.phase_key (KVBarrier.stage b) key)) as Hkey.
  { unfold KVBarrier.publish. by rewrite lookup_insert_eq. }
  unfold barrier_wait, KVBarrier.wait. destruct weather as [peers|].
  - destruct (KVBarrier.poll _ _); intros [= <- <-]; cbn [kv];
      (split; [intros k Hk|]; by apply arrive_is_Some; auto).
  - intros [= <- <-]. cbn [kv]. auto.
Qed.

Lemma next_close m r m1 :
  PortAllocator.next m = (r, m1) → PortAllocator.close m1 = PortAllocator.close m.
Proof.
  unfold PortAllocator.next. destruct (PortAllocator.closed m); [by intros [= <- <-]|].
  destruct (PortAllocator.bind_any m); by intros [= <- <-].
Qed.

Lemma next_yields_free m a m1 :
  PortAllocator.next m = (Returns a, m1) →
  a.1 = PortAllocator.host m ∧ a.2 ∈ PortAllocator.free_ports m.
Proof.
  unfold PortAllocator.next. destruct (PortAllocator.closed m); [done|].
  destruct (PortAllocator.bind_any m) as [p|] eqn:Hp; [|done].
  intros [= <- <-]. split; [done|]. by apply bind_any_Some.
Qed.

(** The [with] block of [main], with the world it leaves. *)
Lemma rendezvous_worlds nw np task weather w r w' :
  with_closing
    (do '(host, port) <- next_addr;
     barrier_wait (KVBarrier.Barrier "init" nw np) task
       (host +:+ ":" +:+ PyStr.str port) weather) w = (r, w') →
  environ w' = environ w
  ∧ (∀ k, is_Some (kv w !! k) → is_Some (kv w' !! k))
  ∧ ((∃ e, r = Raises e ∧ trace w' = trace w ++ [Close]
           ∧ net w' = PortAllocator.close (net w))
     ∨ (∃ a m1, PortAllocator.next (net w) = (Returns a, m1)
          ∧ is_Some (kv w' !! KVBarrier.phase_key "init" task)
          ∧ (r = Blocks
             ∧ trace w' = trace w ++ [Yield a; WaitEnter "init" task (sock_addr a)]
             ∧ net w' = m1
             ∨ r = Raises StoreUnavailable
               ∧ trace w' = trace w ++ [Yield a; WaitEnter "init" task (sock_addr a); Close]
               ∧ net w' = PortAllocator.close (net w)
             ∨ (∃ spec, r = Returns spec)
               ∧ trace w' = trace w ++ [Yield a; WaitEnter "init" task (sock_addr a);
                                        WaitLeave "init"; Close]
               ∧ net w' = PortAllocator.close (net w)))).
Proof.
  unfold with_closing, bind at 1, next_addr.
  destruct (PortAllocator.next (net w)) as [[[h p]|e|] m1] eqn:Hnext.
  - destruct (barrier_wait _ _ _ _ _) as [r1 w1] eqn:Hwait.
    pose proof (barrier_wait_store _ _ _ _ _ _ _ Hwait) as [Hgrow Hkey].
    apply barrier_wait_cases in Hwait as (Henv & Hnet & Hwait).
    cbn [environ kv net trace KVBarrier.stage] in *.
    pose proof (next_close _ _ _ Hnext) as Hclose.
    destruct Hwait as [[[spec ->] Htr]|[[-> | ->] Htr]]; intros [= <- <-];
      cbn [environ kv net trace]; rewrite ?Hnet, ?Hclose, Htr, <-?app_assoc;
      (split_and!; [done|done|]); right; exists (h, p), m1;
      (split_and!; [done|done|]).
    + right. right. eauto.
    + left. done.
    + right. left. done.
  - intros [= <- <-]. cbn [environ kv net trace].
    rewrite (next_close _ _ _ Hnext). split_and!; [done..|]. left. eauto.
  - intros [= <- <-]. unfold PortAllocator.next in Hnext. repeat case_match; simplify_eq.
Qed.

(** What a run of [orchestrate] leaves behind: the store, the key it
    waits under, the port it drew, the machine and the environment. *)
Lemma orchestrate_worlds c nw np task ty id env σ m r w' :
  orchestrate c nw np task ty id (boot env σ m) = (r, w') →
  let m0 := PortAllocator.close (PortAllocator.iter_available_sock_addrs m) in
  (∀ k, is_Some (σ !! k) → is_Some (kv w' !! k))
  ∧ (∀ ph key p, WaitEnter ph key p ∈ trace w' →
       key = task ∧ is_Some (kv w' !! KVBarrier.phase_key ph key))
  ∧ (∀ a, Yield a ∈ trace w' →
       a.1 = PortAllocator.host m
       ∧ a.2 ∈ PortAllocator.free_ports (PortAllocator.iter_available_sock_addrs m))
  ∧ (Close ∈ trace w' → (∀ job index, Server job index ∉ trace w') → net w' = m0)
  ∧ (∀ job index, Server job index ∈ trace w' → net w' = (server c ty id m0).2)
  ∧ (Experiment ∉ trace w' → environ w' = env)
  ∧ (Experiment ∈ trace w' →
       ∃ spec, environ w'
               = <["TF_CONFIG"%string :=
                     json_dumps c spec ty id
                       (if needs_server ty then "google"%string else EmptyString)]> env)
  ∧ (trace w' = [] → w' = boot env σ m).
Proof.
  cbv zeta. unfold orchestrate, boot. unfold bind at 1, connect.
  destruct (from_current c) as [e|].
  { intros [= <- <-]. cbn. split_and!; try done; intros; set_solver. }
  unfold emit. cbn [environ kv net trace app].
  unfold bind at 1, iter_available_sock_addrs. cbn [environ kv net trace].
  unfold bind at 1.
  destruct (with_closing _ _) as [r1 w1] eqn:Hinit.
  apply rendezvous_worlds in Hinit as (Henv1 & Hgrow1 & Hinit).
  cbn [environ kv net trace app] in *.
  destruct Hinit as [(e & -> & Htr1 & Hnet1)
    |(a & m1 & Hnext & Hkey1 & [(-> & Htr1 & Hnet1)|[(-> & Htr1 & Hnet1)|([spec ->] & Htr1 & Hnet1)]])].
  1-3: intros [= <- <-]; rewrite Htr1, ?Henv1;
    (split_and!; [done| | | | | | |done]);
    [intros ph key p Hin; members Hin; try done
    |intros a' Hin; members Hin; try exact (next_yields_free _ _ _ Hnext)
    |intros Hin _; try done; members Hin
    |intros job index Hin; members Hin
    |done
    |intros Hin; members Hin ..].
  unfold bind at 1.
  destruct (dispatch _ _ _ _ _) as [r2 w2] eqn:Hdisp.
  apply dispatch_worlds in Hdisp. cbv zeta in Hdisp.
  rewrite Htr1, Henv1, ?Hnet1 in Hdisp.
  pose proof (next_yields_free _ _ _ Hnext) as Hfree.
  destruct Hdisp as [(old & msg & _ & _ & -> & ->)|[[-> [(e & _ & ->)|(x & _ & _ & ->)]]
    |[(e & _ & _ & -> & _ & ->)|[(_ & _ & -> & _ & ->)|(-> & _ & _ & _ & ->)]]]].
  1-5: intros [= <- <-]; cbn [environ kv net trace]; rewrite ?Htr1, ?Henv1;
    unfold launch, joining; destruct (needs_server ty); destruct (String.eqb ty "ps");
    cbn [app];
    (split_and!;
     [done
     |intros ph key p Hin; members Hin; try done
     |intros a' Hin; members Hin; try done
     |intros Hin Hno; try done; exfalso; apply (Hno ty id); set_solver
     |intros job index Hin; members Hin; done
     |intros Hin; try done; exfalso; apply Hin; set_solver
     |intros Hin; try (by eauto); members Hin
     |done]).
  unfold bind at 1.
  destruct (barrier_wait _ _ _ _ _) as [r3 w3] eqn:Hstop.
  pose proof (barrier_wait_store _ _ _ _ _ _ _ Hstop) as [Hgrow3 Hkey3].
  apply barrier_wait_cases in Hstop as (Henv3 & Hnet3 & Hstop).
  cbn [environ kv net trace KVBarrier.stage] in *.
  assert (
    (∀ k, is_Some (σ !! k) → is_Some (kv w3 !! k))
    ∧ (∀ ph key p, WaitEnter ph key p ∈ trace w3 →
         key = task ∧ is_Some (kv w3 !! KVBarrier.phase_key ph key))
    ∧ (∀ a, Yield a ∈ trace w3 →
         a.1 = PortAllocator.host m
         ∧ a.2 ∈ PortAllocator.free_ports (PortAllocator.iter_available_sock_addrs m))
    ∧ (Close ∈ trace w3 → (∀ job index, Server job index ∉ trace w3) →
         net w3 = PortAllocator.close (PortAllocator.iter_available_sock_addrs m))
    ∧ (∀ job index, Server job index ∈ trace w3 →
         net w3 = (server c ty id
                     (PortAllocator.close (PortAllocator.iter_available_sock_addrs m))).2)
    ∧ (Experiment ∉ trace w3 → environ w3 = env)
    ∧ (Experiment ∈ trace w3 →
         ∃ spec, environ w3
                 = <["TF_CONFIG"%string :=
                       json_dumps c spec ty id
                         (if needs_server ty then "google"%string else EmptyString)]> env)
    ∧ (trace w3 = [] → w3 = boot env σ m)) as Hfinal.
  { rewrite Henv3, Hnet3.
    assert (∃ tl, trace w3 = [Connect; Yield a; WaitEnter "init" task (sock_addr a);
                              WaitLeave "init"; Close] ++ launch ty id ++ joining ty
                             ++ WaitEnter "stop" task EmptyString :: tl
                  ∧ ∀ ev, ev ∈ tl → ev = WaitLeave "stop") as (tl & Htr3 & Htl).
    { destruct Hstop as [[_ ->]|[_ ->]]; rewrite <-?app_assoc; cbn [app]; eexists;
        (split; [done|]);
        intros ev Hin; members Hin; done. }
    rewrite Htr3. clear Htr3 Hstop.
    unfold launch, joining; destruct (needs_server ty); destruct (String.eqb ty "ps");
    cbn [app];
    (split_and!;
     [by auto
     |intros ph key p Hin; members Hin; try (split; by auto); by apply Htl in Hin
     |intros a' Hin; members Hin; try done; by apply Htl in Hin
     |intros Hin Hno; try done; exfalso; apply (Hno ty id); set_solver
     |intros job index Hin; members Hin; try done; by apply Htl in Hin
     |intros Hin; exfalso; apply Hin; set_solver
     |intros Hin; eauto
     |done]). }
  destruct Hstop as [[[spec' ->] _]|[[-> | ->] _]];
    [destruct (MonitoredThread.exception _)|..]; unfold raise, ret; intros [= <- <-]; apply Hfinal.
Qed.

Lemma orchestrate_returns_finished c nw np task ty id env σ m w' :
  orchestrate c nw np task ty id (boot env σ m) = (Returns (), w') →
  ty ≠ "ps"%string → train_and_evaluate c = MonitoredThread.Finishes.
Proof.
  unfold orchestrate, boot. unfold bind at 1, connect.
  destruct (from_current c) as [e|]; [done|].
  unfold emit. cbn [environ kv net trace app].
  unfold bind at 1, iter_available_sock_addrs. cbn [environ kv net trace].
  unfold bind at 1.
  destruct (with_closing _ _) as [[spec|e|] w1]; [|done..].
  unfold bind at 1.
  destruct (dispatch _ _ _ _ _) as [r2 w2] eqn:Hdisp.
  apply dispatch_worlds in Hdisp. cbv zeta in Hdisp.
  destruct Hdisp as [(old & msg & _ & _ & -> & ->)|[[-> [(e & _ & ->)|(x & _ & _ & ->)]]
    |[(e & _ & _ & -> & _ & ->)|[(_ & _ & -> & _ & ->)|(-> & Hrun & _ & _ & ->)]]]];
    [done..|].
  unfold bind at 1.
  destruct (barrier_wait _ _ _ _ _) as [[u|e|] w3]; [|done..].
  intros Hret Hty. apply String.eqb_neq in Hty. specialize (Hrun Hty).
  unfold MonitoredThread.exception in Hret. cbn in Hret.
  rewrite Hty in Hret. destruct (train_and_evaluate c); by simplify_eq.
Qed.

(** X5.  [main] draws at most one address.  It is on the machine's own
    host and its port was free when [main] began.  Once the sequence has
    been closed, and as long as no TensorFlow server has been started, the
    sequence holds no port and the ports bound on the machine are those
    that were bound before; after the start of the server the machine is
    as the server left that machine: nothing else in [main] acts on the
    ports. *)
Theorem main_reserves_one_free_port c nw np env σ m r w' :
  main c nw np (boot env σ m) = (r, w') →
  (∀ a, Yield a ∈ trace w' →
     a.1 = PortAllocator.host m
     ∧ a.2 ∈ PortAllocator.ephemeral m ∧ a.2 ∉ PortAllocator.bound m)
  ∧ (∀ i j a b, trace w' !! i = Some (Yield a) → trace w' !! j = Some (Yield b) → i = j)
  ∧ (Close ∈ trace w' → (∀ job index, Server job index ∉ trace w') →
     PortAllocator.held (net w') = []
     ∧ PortAllocator.closed (net w') = true
     ∧ PortAllocator.bound (net w') = PortAllocator.bound m)
  ∧ (∀ job index, Server job index ∈ trace w' →
     net w' = (server c job index
                 (PortAllocator.close (PortAllocator.iter_available_sock_addrs m))).2).
Proof.
  intros [[-> _]|(task & ty & rest & id & _ & _ & _ & Hrun)]%main_orchestrates.
  { cbn. split_and!; [intros a Hin|intros i j a b Hi|intros Hin|intros job index Hin];
      set_solver. }
  pose proof (orchestrate_protocol _ _ _ _ _ _ _ _ _ _ _ Hrun) as Hp.
  apply orchestrate_worlds in Hrun as (_ & _ & Hyield & Hclose & Hserver & _).
  split_and!.
  - intros a [-> Hfree]%Hyield. split; [done|].
    unfold PortAllocator.free_ports, PortAllocator.bound in *. cbn in Hfree. set_solver.
  - intros i j a b Hi Hj.
    destruct Hp; trace_shapes ty; trace_index Hi; trace_index Hj; done.
  - intros Hin Hno. rewrite (Hclose Hin Hno). cbn. unfold PortAllocator.bound. cbn. set_solver.
  - intros job index Hin. rewrite (Hserver _ _ Hin).
    assert (job = ty ∧ index = id) as [-> ->]; [|done].
    clear Hyield Hclose Hserver.
    destruct Hp; trace_shapes ty; members Hin; done.
Qed.

Lemma main_reserves_one_free_port_witness :
  (5001 ∉ PortAllocator.bound Scenario.node)
  ∧ PortAllocator.bound
      (net (main (Scenario.crew "evaluator" 0 "ps_0" MonitoredThread.Finishes) 1 1
              (Scenario.container "evaluator_0")).2)
    = PortAllocator.bound Scenario.node
  ∧ net (main (Scenario.crew "worker" 0 "ps_0" MonitoredThread.Finishes) 1 1
           (Scenario.container "worker_0")).2
    = (Scenario.grpc_server 5001 "worker" 0
         (PortAllocator.close (PortAllocator.iter_available_sock_addrs Scenario.node))).2.
Proof.
  split_and!.
  - destruct (main_reserves_one_free_port
                (Scenario.crew "worker" 0 "ps_0" MonitoredThread.Finishes)
                1%nat 1%nat {["SKEIN_CONTAINER_ID"%string := "worker_0"%string]} ∅
                Scenario.node _ _ (surjective_pairing _)) as (Hyield & _).
    apply (Hyield ("node"%string, 5001)).
    apply list_elem_of_In. vm_compute. right. left. reflexivity.
  - destruct (main_reserves_one_free_port
                (Scenario.crew "evaluator" 0 "ps_0" MonitoredThread.Finishes)
                1%nat 1%nat {["SKEIN_CONTAINER_ID"%string := "evaluator_0"%string]} ∅
                Scenario.node _ _ (surjective_pairing _)) as (_ & _ & Hclose & _).
    apply Hclose.
    + apply list_elem_of_In. vm_compute. do 4 right. left. reflexivity.
    + intros job index Hin. apply list_elem_of_In in Hin. vm_compute in Hin.
      repeat (destruct Hin as [Hin|Hin]; [discriminate|]). exact Hin.
  - destruct (main_reserves_one_free_port
                (Scenario.crew "worker" 0 "ps_0" MonitoredThread.Finishes)
                1%nat 1%nat {["SKEIN_CONTAINER_ID"%string := "worker_0"%string]} ∅
                Scenario.node _ _ (surjective_pairing _)) as (_ & _ & _ & Hserver).
    apply (Hserver "worker"%string 0).
    apply list_elem_of_In. vm_compute. do 6 right. left. reflexivity.
Defined.

(** X6.  [main] changes no variable of the environment other than
    [TF_CONFIG], and changes nothing at all in a run that does not reach
    the experiment function; in a run that reaches it, [TF_CONFIG] is
    set. *)
Theorem main_changes_only_tf_config c nw np env σ m r w' :
  main c nw np (boot env σ m) = (r, w') →
  (∀ k, k ≠ "TF_CONFIG"%string → environ w' !! k = env !! k)
  ∧ (Experiment ∉ trace w' → environ w' = env)
  ∧ (Experiment ∈ trace w' → is_Some (environ w' !! "TF_CONFIG"%string)).
Proof.
  intros [[-> _]|(task & ty & rest & id & _ & _ & _ & Hrun)]%main_orchestrates.
  { cbn. split_and!; [done..|]. intros Hin. by apply elem_of_nil in Hin. }
  apply orchestrate_worlds in Hrun as (_ & _ & _ & _ & _ & Hnot & Hexp & _).
  split_and!; [|done|].
  - intros k Hk. destruct (decide (Experiment ∈ trace w')) as [Hin|Hout].
    + destruct (Hexp Hin) as [spec ->]. by rewrite lookup_insert_ne.
    + by rewrite (Hnot Hout).
  - intros [spec ->]%Hexp. by rewrite lookup_insert_eq.
Qed.

Lemma main_changes_only_tf_config_witness :
  environ (main (Scenario.crew "worker" 0 "ps_0" MonitoredThread.Finishes) 1 1
             (Scenario.container "worker_0")).2 !! "SKEIN_CONTAINER_ID"%string
  = Some "worker_0"%string
  ∧ is_Some (environ (main (Scenario.crew "worker" 0 "ps_0" MonitoredThread.Finishes) 1 1
                        (Scenario.container "worker_0")).2 !! "TF_CONFIG"%string).
Proof.
  destruct (main_changes_only_tf_config
              (Scenario.crew "worker" 0 "ps_0" MonitoredThread.Finishes)
              1%nat 1%nat {["SKEIN_CONTAINER_ID"%string := "worker_0"%string]} ∅
              Scenario.node _ _ (surjective_pairing _)) as (Hother & _ & Hset).
  split.
  - rewrite Hother; [reflexivity|discriminate].
  - apply Hset. apply list_elem_of_In. vm_compute. do 5 right. left. reflexivity.
Defined.

(** X7.  [main] deletes no key of the store.  It enters both waits under
    the container id as it stands in the environment, not under the parsed
    identity, and from then on the store has an entry at
    [<phase>/<container id>]. *)
Theorem main_publishes_under_container_id c nw np env σ m r w' :
  main c nw np (boot env σ m) = (r, w') →
  (∀ k, is_Some (σ !! k) → is_Some (kv w' !! k))
  ∧ (∀ ph key p, WaitEnter ph key p ∈ trace w' →
       env !! "SKEIN_CONTAINER_ID"%string = Some key
       ∧ is_Some (kv w' !! KVBarrier.phase_key ph key)).
Proof.
  intros [[-> _]|(task & ty & rest & id & Henv & _ & _ & Hrun)]%main_orchestrates.
  { cbn. split; [done|]. intros ph key p Hin. by apply elem_of_nil in Hin. }
  apply orchestrate_worlds in Hrun as (Hgrow & Hwait & _).
  split; [done|]. intros ph key p [-> Hkey]%Hwait. done.
Qed.

Lemma main_publishes_under_container_id_witness :
  is_Some (kv (main (Scenario.crew "worker" 0 "ps_0" MonitoredThread.StillRunning) 1 1
                 (Scenario.container "worker_0")).2
           !! KVBarrier.phase_key "init" "worker_0").
Proof.
  destruct (main_publishes_under_container_id
              (Scenario.crew "worker" 0 "ps_0" MonitoredThread.StillRunning)
              1%nat 1%nat {["SKEIN_CONTAINER_ID"%string := "worker_0"%string]} ∅
              Scenario.node _ _ (surjective_pairing _)) as (_ & Hwait).
  apply (Hwait "init"%string "worker_0"%string "node:5001"%string).
  apply list_elem_of_In. vm_compute. do 2 right. left. reflexivity.
Defined.

(** X8.  When the unit of work fails, a run that has started it still
    enters the stop wait and publishes its stop key: the failure is held
    back until the peers have been told. *)
Theorem failed_unit_still_signals_stop c nw np env σ m r w' e name daemon :
  main c nw np (boot env σ m) = (r, w') →
  train_and_evaluate c = MonitoredThread.Fails e →
  Start name daemon ∈ trace w' →
  ∃ task, env !! "SKEIN_CONTAINER_ID"%string = Some task
    ∧ WaitEnter "stop" task EmptyString ∈ trace w'
    ∧ is_Some (kv w' !! KVBarrier.phase_key "stop" task).
Proof.
  intros [[-> _]|(task & ty & rest & id & Henv & _ & _ & Hrun)]%main_orchestrates Hfail Hstart.
  { by apply elem_of_nil in Hstart. }
  pose proof (orchestrate_protocol _ _ _ _ _ _ _ _ _ _ _ Hrun) as Hp.
  apply orchestrate_worlds in Hrun as (_ & Hwait & _).
  exists task. split; [done|].
  assert (WaitEnter "stop" task EmptyString ∈ trace w') as Hin.
  { rewrite Hfail in Hp. destruct Hp; try done; trace_shapes ty;
      try (exfalso; revert Hstart; clear; set_solver); set_solver. }
  split; [done|]. by destruct (Hwait _ _ _ Hin).
Qed.

Lemma failed_unit_still_signals_stop_witness :
  ∃ task, ({["SKEIN_CONTAINER_ID"%string := "worker_0"%string]} : gmap string string)
            !! "SKEIN_CONTAINER_ID"%string = Some task
    ∧ WaitEnter "stop" task EmptyString
      ∈ trace (main (Scenario.crew "worker" 0 "ps_0" (MonitoredThread.Fails (Failure 7 "boom")))
                 1 1 (Scenario.container "worker_0")).2
    ∧ is_Some (kv (main (Scenario.crew "worker" 0 "ps_0"
                           (MonitoredThread.Fails (Failure 7 "boom")))
                     1 1 (Scenario.container "worker_0")).2
               !! KVBarrier.phase_key "stop" task).
Proof.
  apply (failed_unit_still_signals_stop
           (Scenario.crew "worker" 0 "ps_0" (MonitoredThread.Fails (Failure 7 "boom")))
           1%nat 1%nat {["SKEIN_CONTAINER_ID"%string := "worker_0"%string]} ∅
           Scenario.node _ _ (Failure 7 "boom") "worker:0" false (surjective_pairing _)).
  - reflexivity.
  - apply list_elem_of_In. vm_compute. do 7 right. left. reflexivity.
Defined.

(** X9.  [main] returns normally only at the end of the whole protocol:
    rendezvous, launch, join (unless the type is ["ps"]) and a completed
    stop barrier, with a unit of work that did not fail and, unless the
    type is ["ps"], has finished. *)
Theorem main_returns_only_when_done c nw np env σ m w' :
  main c nw np (boot env σ m) = (Returns (), w') →
  ∃ task ty rest id a,
    env !! "SKEIN_CONTAINER_ID"%string = Some task
    ∧ PyStr.split_first "_" task = Some (ty, rest) ∧ PyStr.int (python c) rest = Some id
    ∧ trace w' = rendezvous task a ++ launch ty id ++ joining ty
                 ++ [WaitEnter "stop" task EmptyString; WaitLeave "stop"]
    ∧ (∀ e, train_and_evaluate c ≠ MonitoredThread.Fails e)
    ∧ (ty ≠ "ps"%string → train_and_evaluate c = MonitoredThread.Finishes).
Proof.
  intros Hmain.
  pose proof (main_orchestrates _ _ _ _ _ _ _ _ Hmain)
    as [[_ [e [=]]]|(task & ty & rest & id & Henv & Hsplit & Hint & Hrun)].
  exists task, ty, rest, id.
  pose proof (orchestrate_protocol _ _ _ _ _ _ _ _ _ _ _ Hrun) as Hp.
  pose proof (orchestrate_returns_finished _ _ _ _ _ _ _ _ _ _ Hrun) as Hfin.
  remember (Returns ()) as r eqn:Hr.
  destruct Hp as [| | | | | | | |a r [-> | ->]|a]; try discriminate.
  exists a. split_and!; [done..| |done].
  intros e He. rewrite He in Hr. done.
Qed.

Lemma main_returns_only_when_done_witness :
  ∃ task ty rest id a,
    ({["SKEIN_CONTAINER_ID"%string := "ps_0"%string]} : gmap string string)
      !! "SKEIN_CONTAINER_ID"%string = Some task
    ∧ PyStr.split_first "_" task = Some (ty, rest) ∧ PyStr.int PyStr.cpython rest = Some id
    ∧ trace (main (Scenario.crew "ps" 0 "worker_0" MonitoredThread.StillRunning) 1 1
               (Scenario.container "ps_0")).2
      = rendezvous task a ++ launch ty id ++ joining ty
        ++ [WaitEnter "stop" task EmptyString; WaitLeave "stop"]
    ∧ (∀ e, MonitoredThread.StillRunning ≠ MonitoredThread.Fails e)
    ∧ (ty ≠ "ps"%string → MonitoredThread.StillRunning = MonitoredThread.Finishes).
Proof.
  apply (main_returns_only_when_done
           (Scenario.crew "ps" 0 "worker_0" MonitoredThread.StillRunning)
           1%nat 1%nat {["SKEIN_CONTAINER_ID"%string := "ps_0"%string]} ∅ Scenario.node).
  apply injective_projections; [vm_compute; reflexivity|reflexivity].
Defined.

(** X10.  The TensorFlow server is started after the sequence has been
    closed.  The machine it is started on is the one the close has left:
    there the address that [main] drew and published is no longer held,
    and a third party can bind it.  Nothing acts on the ports after the
    server. *)
Theorem server_starts_after_port_release c nw np env σ m r w' j job index :
  main c nw np (boot env σ m) = (r, w') →
  trace w' !! j = Some (Server job index) →
  let m0 := PortAllocator.close (PortAllocator.iter_available_sock_addrs m) in
  ∃ a i k, (i < k < j)%nat
    ∧ trace w' !! i = Some (Yield a) ∧ trace w' !! k = Some Close
    ∧ net w' = (server c job index m0).2
    ∧ PortAllocator.closed m0 = true
    ∧ (PortAllocator.bind a m0).1 = Returns ().
Proof.
  intros [[-> _]|(task & ty & rest & id & _ & _ & _ & Hrun)]%main_orchestrates Hj m0; [done|].
  pose proof (orchestrate_protocol _ _ _ _ _ _ _ _ _ _ _ Hrun) as Hp.
  apply orchestrate_worlds in Hrun as (_ & _ & Hyield & _ & Hserver & _).
  assert (∀ a, Yield a ∈ trace w' → (PortAllocator.bind a m0).1 = Returns ()) as Hfree.
  { intros a [_ Ha]%Hyield.
    unfold PortAllocator.bind. rewrite decide_False; [done|].
    unfold PortAllocator.free_ports, PortAllocator.bound in *. cbn in *. set_solver. }
  assert (net w' = (server c ty id m0).2) as Hnet.
  { apply (Hserver job index). by eapply list_elem_of_lookup_2. }
  clear Hyield Hserver.
  remember (trace w') as tr eqn:Htr.
  destruct Hp; trace_shapes ty; trace_index Hj;
    (exists a, 1%nat, 4%nat; split; [lia|]; split; [done|]; split; [done|];
     split; [done|]; split; [done|]);
    apply Hfree; set_solver.
Qed.

Lemma server_starts_after_port_release_witness :
  ∃ a i,
    trace (main (Scenario.crew "worker" 0 "ps_0" MonitoredThread.Finishes) 1 1
             (Scenario.container "worker_0")).2 !! i = Some (Yield a)
    ∧ (PortAllocator.bind a
         (PortAllocator.close (PortAllocator.iter_available_sock_addrs Scenario.node))).1
      = Returns ().
Proof.
  destruct (server_starts_after_port_release
              (Scenario.crew "worker" 0 "ps_0" MonitoredThread.Finishes)
              1%nat 1%nat {["SKEIN_CONTAINER_ID"%string := "worker_0"%string]} ∅
              Scenario.node _ _ 6%nat "worker" 0 (surjective_pairing _))
    as (a & i & k & _ & Hi & _ & _ & _ & Hbind).
  - vm_compute. reflexivity.
  - exists a, i. split; [exact Hi|exact Hbind].
Defined.

(** On [node], a third party that takes the published port between the
    close and the start of the server makes the server fail. *)
Example server_loses_the_race :
  let m0 := PortAllocator.close (PortAllocator.iter_available_sock_addrs Scenario.node) in
  (PortAllocator.bind ("node"%string, 5001) m0).1 = Returns ()
  ∧ (Scenario.grpc_server 5001 "worker" 0 m0).1 = None
  ∧ (Scenario.grpc_server 5001 "worker" 0
       (PortAllocator.bind ("node"%string, 5001) m0).2).1
    = Some (Failure 3 "Could not start gRPC server").
Proof. repeat split; vm_compute; reflexivity. Qed.

Lemma str_plain n :
  PyStr.plain (PyStr.str n) = true
  ∧ PyStr.int_literal (PyStr.str n) = Some n.
Proof.
  unfold PyStr.str. destruct n as [|p|p]; [done|..]; cbn [Z.to_int NilZero.string_of_int].
  - assert (Pos.to_uint p ≠ Nil) as Hp by apply DecimalPos.Unsigned.to_uint_nonnil.
    assert (NilZero.string_of_uint (Pos.to_uint p) = NilEmpty.string_of_uint (Pos.to_uint p))
      as -> by by destruct (Pos.to_uint p).
    split; [apply uint_plain|].
    assert (PyStr.int_literal (NilEmpty.string_of_uint (Pos.to_uint p))
            = PyStr.int_digits 0 false (NilEmpty.string_of_uint (Pos.to_uint p))) as ->.
    { by destruct (Pos.to_uint p). }
    rewrite int_digits_uint by auto. unfold Z.of_uint. by rewrite DecimalPos.Unsigned.of_to.
  - assert (Pos.to_uint p ≠ Nil) as Hp by apply DecimalPos.Unsigned.to_uint_nonnil.
    assert (NilZero.string_of_uint (Pos.to_uint p) = NilEmpty.string_of_uint (Pos.to_uint p))
      as -> by by destruct (Pos.to_uint p).
    split; [cbn [PyStr.plain]; by rewrite (proj1 (uint_plain _))|].
    unfold PyStr.int_literal. cbn [PyStr.lstrip]. change (PyStr.is_space "-") with false.
    cbv iota.
    rewrite int_digits_uint by auto. cbn. unfold Z.of_uint. by rewrite DecimalPos.Unsigned.of_to.
Qed.

(** [int] reads back what [str] writes, for every integer whose digits
    are not more than the interpreter allows in a literal. *)
Lemma int_str py n :
  PyStr.int py (PyStr.str n)
  = if PyStr.exceeds (PyStr.int_max_str_digits py) (PyStr.digit_count (PyStr.str n))
    then None else Some n.
Proof.
  destruct (str_plain n) as [Hplain Hlit].
  by rewrite (int_plain py _ Hplain), Hlit.
Qed.

(** X11.  For a container id [<type>_<str n>] whose type has no
    underscore, [main] goes on with that type and with [n], whatever the
    integer [n], negative ones included: always on an interpreter without
    a limit on the digits of a literal, and otherwise as long as the
    digits of [n] are within the limit.  When they are beyond it, [main]
    fails with a [ValueError] and has done nothing else. *)
Theorem main_reads_back_index c nw np w ty n :
  environ w !! "SKEIN_CONTAINER_ID"%string = Some (ty +:+ "_" +:+ PyStr.str n) →
  PyStr.occurs "_" ty = false →
  (PyStr.exceeds (PyStr.int_max_str_digits (python c)) (PyStr.digit_count (PyStr.str n))
   = false →
   main c nw np w = orchestrate c nw np (ty +:+ "_" +:+ PyStr.str n) ty n w)
  ∧ (PyStr.exceeds (PyStr.int_max_str_digits (python c)) (PyStr.digit_count (PyStr.str n))
     = true →
     ∃ msg, main c nw np w = (Raises (ValueError msg), w))
  ∧ (PyStr.int_max_str_digits (python c) = 0%nat
     ∨ (PyStr.digit_count (PyStr.str n) ≤ PyStr.int_max_str_digits (python c))%nat →
     PyStr.exceeds (PyStr.int_max_str_digits (python c)) (PyStr.digit_count (PyStr.str n))
     = false).
Proof.
  intros Henv Hty.
  rewrite (main_split c nw np w _ ty (PyStr.str n) Henv) by by apply split_first_app.
  unfold bind, to_int. rewrite int_str. split_and!.
  - by intros ->.
  - intros ->. by eexists.
  - intros Hlimit. unfold PyStr.exceeds. apply andb_false_iff.
    destruct Hlimit as [-> |Hle]; [left; by rewrite andb_false_r|right].
    by apply Nat.ltb_ge.
Qed.

Lemma main_reads_back_index_witness :
  main (Scenario.crew "worker" (-3) "ps_0" MonitoredThread.Finishes) 1 1
       (Scenario.container "worker_-3")
  = orchestrate (Scenario.crew "worker" (-3) "ps_0" MonitoredThread.Finishes) 1 1
       "worker_-3" "worker" (-3) (Scenario.container "worker_-3").
Proof.
  apply (main_reads_back_index _ 1%nat 1%nat (Scenario.container "worker_-3") "worker" (-3));
    reflexivity.
Defined.

End MainFacts.

(** ** The test of the port allocator *)
Section TestFacts.
Import PortAllocator Tests.

(** With fewer than [n] free ports, drawing [n] addresses fails with the
    error of the platform and the sequence is over. *)
Lemma draw_short n : ∀ m,
  closed m = false → (available m < n)%nat →
  ∃ m', draw n m = (Raises (OSError ENOBUFS), m')
        ∧ closed m' = true ∧ held m' = [] ∧ others m' = others m.
Proof.
  induction n as [|n IH]; intros m Hopen Hn; [lia|].
  cbn [draw]. unfold next. rewrite Hopen.
  destruct (bind_any m) as [p|] eqn:Hp; [|by eexists].
  apply bind_any_Some in Hp.
  destruct m as [h pool hs cl o]. cbn in *. subst cl.
  destruct (IH (Machine h pool (hs ++ [p]) false o)) as (m' & -> & ? & ? & ?); [done| |].
  { pose proof (available_snoc h pool hs o p Hp). lia. }
  by exists m'.
Qed.

(** Drawing changes nothing that outlives the sequence. *)
Lemma draw_close n : ∀ m r m', draw n m = (r, m') → close m' = close m.
Proof.
  induction n as [|n IH]; intros m r m'; cbn [draw]; [by intros [= <- <-]|].
  destruct (next m) as [[a|e|] m1] eqn:Hnext; apply next_close in Hnext as <-;
    [|by intros [= <- <-]..].
  destruct (draw n m1) as [[l|e|] m2] eqn:Hdraw; apply IH in Hdraw as <-;
    by intros [= <- <-].
Qed.

Lemma for_each_refused l m :
  (∀ a, a ∈ l → a.2 ∈ bound m) → for_each expect_in_use l m = (Returns (), m).
Proof.
  induction l as [|a l IH]; intros Hl; [done|].
  cbn [for_each]. unfold expect_in_use, bind.
  rewrite decide_True by (apply Hl; left). cbn.
  apply IH. intros b Hb. apply Hl. by right.
Qed.

(** The run of the test on any machine. *)
Lemma test_iter_available_sock_addrs_run order m :
  (∀ l, order l ≡ₚ l) →
  test_iter_available_sock_addrs order m
  = (if decide (5 ≤ available (iter_available_sock_addrs m))%nat
     then Returns () else Raises (OSError ENOBUFS),
     close (iter_available_sock_addrs m)).
Proof.
  intros Horder. unfold test_iter_available_sock_addrs.
  set (it := iter_available_sock_addrs m).
  destruct (decide (5 ≤ available it)%nat) as [Hfree|Hshort].
  - destruct (draw_distinct 5 it eq_refl Hfree) as (l & m1 & Hdraw & Hlen & Hnd & _ & _ & Hheld).
    rewrite Hdraw. apply draw_close in Hdraw as <-.
    assert (order (remove_dups l) ≡ₚ l) as Hperm.
    { rewrite Horder. apply NoDup_Permutation; [apply NoDup_remove_dups|done|].
      intros a. apply elem_of_remove_dups. }
    rewrite decide_True by (by rewrite Hperm).
    rewrite for_each_refused; [done|].
    intros a Ha. rewrite Hperm in Ha. unfold bound. rewrite Hheld. cbn.
    apply elem_of_union_l, elem_of_list_to_set. by apply list_elem_of_fmap_2.
  - destruct (draw_short 5 it eq_refl) as (m' & Hdraw & _); [lia|].
    rewrite Hdraw. by apply draw_close in Hdraw as <-.
Qed.

(** X12.  [test_iter_available_sock_addrs] passes on every machine with at
    least five free ports, in whatever order the set is iterated; with
    fewer it ends with the [OSError] of the platform.  In both cases it
    leaves every port it drew released. *)
Theorem test_iter_available_sock_addrs_verdict order m :
  (∀ l, order l ≡ₚ l) →
  ((5 ≤ available (iter_available_sock_addrs m))%nat →
     (test_iter_available_sock_addrs order m).1 = Returns ())
  ∧ ((available (iter_available_sock_addrs m) < 5)%nat →
     (test_iter_available_sock_addrs order m).1 = Raises (OSError ENOBUFS))
  ∧ (test_iter_available_sock_addrs order m).2 = close (iter_available_sock_addrs m).
Proof.
  intros Horder. rewrite (test_iter_available_sock_addrs_run _ _ Horder). cbn [fst snd].
  split_and!; [intros ?|intros ?|done].
  - by rewrite decide_True.
  - by rewrite decide_False by lia.
Qed.

Lemma test_iter_available_sock_addrs_verdict_witness :
  (test_iter_available_sock_addrs reverse
     (fresh "node" [5000; 5001; 5002; 5003; 5004; 5005] {[5000]})).1 = Returns ()
  ∧ (test_iter_available_sock_addrs reverse Scenario.node).1 = Raises (OSError ENOBUFS).
Proof.
  split.
  - apply (proj1 (test_iter_available_sock_addrs_verdict reverse
               (fresh "node" [5000; 5001; 5002; 5003; 5004; 5005] {[5000]})
               reverse_Permutation)).
    vm_compute. lia.
  - apply (proj1 (proj2 (test_iter_available_sock_addrs_verdict reverse Scenario.node
               reverse_Permutation))).
    vm_compute. lia.
Defined.

End TestFacts.
